(** * kfp.dsl._container_op: the ContainerOp class

    A shallow embedding of [sdk/python/kfp/dsl/_container_op.py] and the
    properties of its constructor and of its builder methods.

    Python text is a sequence of Unicode code points.  The regular
    expressions of the module are kept as syntax and run by a backtracking
    matcher that follows the priority rules of Python's [re] module.  In
    comments a pattern is quoted with a blank between a star and a closing
    parenthesis. *)

From Stdlib Require Import NArith ZArith Lia Ascii.
From stdpp Require Import base option list gmap strings.

Local Open Scope N_scope.

(** ** Python strings *)

(** A [str] is a list of code points. *)
Abbreviation str := (list N).

(** The [str] of an ASCII literal. *)
Definition py (s : string) : str :=
  (λ a, N_of_ascii a) <$> String.list_ascii_of_string s.

(** The character tables of the interpreter for code points beyond ASCII
    ([str.isalnum], [str.isspace] and the decimal value of a digit).  They
    belong to the Python runtime, so the development is parametric in them. *)
Class UnicodeDB := {
  uni_alnum : N → bool;
  uni_space : N → bool;
  uni_decimal : N → option N
}.

(** A database with no entry: enough for ASCII text, where no table is
    consulted. *)
Definition ascii_db : UnicodeDB :=
  {| uni_alnum := λ _, false; uni_space := λ _, false; uni_decimal := λ _, None |}.

Definition in_range (lo hi c : N) : bool := (lo <=? c) && (c <=? hi).

(** [[0-9]], [[A-Za-z]]: ranges of code points. *)
Definition is_digit (c : N) : bool := in_range 48 57 c.
Definition is_letter (c : N) : bool := in_range 65 90 c || in_range 97 122 c.

Section Classes.
Context {U : UnicodeDB}.

(** [\w] on a [str] pattern: alphanumeric or underscore. *)
Definition is_word (c : N) : bool :=
  if c <? 128 then is_digit c || is_letter c || (c =? 95) else uni_alnum c.

(** [\s] on a [str] pattern: Unicode white space; below 128 these are
    tab to carriage return, the four separators 28 to 31, and space. *)
Definition is_space (c : N) : bool :=
  if c <? 128 then in_range 9 13 c || in_range 28 31 c || (c =? 32)
  else uni_space c.

(** [[\w\s_-]] *)
Definition is_param_char (c : N) : bool :=
  is_word c || is_space c || (c =? 95) || (c =? 45).

(** [[A-Za-z0-9\s_-]] *)
Definition is_name_char (c : N) : bool :=
  is_letter c || is_digit c || is_space c || (c =? 95) || (c =? 45).
End Classes.

(** [.] without the DOTALL flag: anything but a line feed. *)
Definition is_dot (c : N) : bool := negb (c =? 10).

(** ** Regular expressions *)

Module Re.

(** The fragment of the pattern language that the module uses.
    Repetition applies to one-character items only. *)
Inductive regex : Type :=
| Eps
| Chr (p : N → bool)
| Bol
| Eol
| Cat (a b : regex)
| Alt (a b : regex)
| Rep (greedy : bool) (lo : nat) (hi : option nat) (p : N → bool)
| Grp (i : nat) (a : regex).

(** A literal string. *)
Definition lit (s : str) : regex :=
  foldr (λ ch r, Cat (Chr (N.eqb ch)) r) Eps s.

(** [a{0,1}] and [a?]: try [a] first. *)
Definition Opt (a : regex) : regex := Alt a Eps.

(** A position in the subject: how much was read, and what is left. *)
Record cursor := Cursor { pos : nat; rest : str }.

(** The text of the numbered groups. *)
Abbreviation caps := (gmap nat str).

Definition below (hi : option nat) (cnt : nat) : bool :=
  match hi with None => true | Some h => (cnt <? h)%nat end.

(** The ends of a run of [p], longest first. *)
Fixpoint rep_greedy (p : N → bool) (lo : nat) (hi : option nat)
    (cnt n : nat) (t : str) : list cursor :=
  match t with
  | ch :: t' =>
      if p ch && below hi cnt then rep_greedy p lo hi (S cnt) (S n) t' else []
  | [] => []
  end ++ (if (lo <=? cnt)%nat then [Cursor n t] else []).

(** The ends of a run of [p], shortest first. *)
Fixpoint rep_lazy (p : N → bool) (lo : nat) (hi : option nat)
    (cnt n : nat) (t : str) : list cursor :=
  (if (lo <=? cnt)%nat then [Cursor n t] else []) ++
  match t with
  | ch :: t' =>
      if p ch && below hi cnt then rep_lazy p lo hi (S cnt) (S n) t' else []
  | [] => []
  end.

(** All the ways [r] matches at [cur], in the order in which the
    backtracking matcher tries them.  The matcher commits to the first. *)
Fixpoint m (r : regex) (cur : cursor) (c : caps) : list (cursor * caps) :=
  match r with
  | Eps => [(cur, c)]
  | Chr p =>
      match rest cur with
      | ch :: t => if p ch then [(Cursor (S (pos cur)) t, c)] else []
      | [] => []
      end
  | Bol => if (pos cur =? 0)%nat then [(cur, c)] else []
  | Eol =>
      match rest cur with
      | [] => [(cur, c)]
      | [ch] => if ch =? 10 then [(cur, c)] else []
      | _ => []
      end
  | Cat a b => m a cur c ≫= (λ x, m b x.1 x.2)
  | Alt a b => m a cur c ++ m b cur c
  | Rep g lo hi p =>
      (λ cur', (cur', c)) <$>
        (if g then rep_greedy p lo hi 0 (pos cur) (rest cur)
         else rep_lazy p lo hi 0 (pos cur) (rest cur))
  | Grp i a =>
      (λ x, (x.1, <[i := take (pos x.1 - pos cur) (rest cur)]> x.2))
        <$> m a cur c
  end.

(** [re.match(r, s)]: the first match that starts at offset 0. *)
Definition match_ (r : regex) (s : str) : option (cursor * caps) :=
  head (m r (Cursor 0 s) ∅).

(** The text of group [i]; a group that took no part reads as empty. *)
Definition group (c : caps) (i : nat) : str := default [] (c !! i).

(** [re.findall(r, s)] for a pattern with three groups: the matches from
    left to right, each search resuming where the last match ended.  A
    match of no character resumes one character further. *)
Fixpoint findall_from (fuel : nat) (r : regex) (cur : cursor)
    : list (str * str * str) :=
  match fuel with
  | O => []
  | S fuel' =>
      match head (m r cur ∅) with
      | Some (cur', c) =>
          (group c 1, group c 2, group c 3) ::
          (if (pos cur <? pos cur')%nat then findall_from fuel' r cur'
           else match rest cur with
                | [] => []
                | _ :: t => findall_from fuel' r (Cursor (S (pos cur)) t)
                end)
      | None =>
          match rest cur with
          | [] => []
          | _ :: t => findall_from fuel' r (Cursor (S (pos cur)) t)
          end
      end
  end.

Definition findall (r : regex) (s : str) : list (str * str * str) :=
  findall_from (S (length s)) r (Cursor 0 s).

End Re.

Import Re.

Section Patterns.
Context {U : UnicodeDB}.

(** [{{pipelineparam:op=([\w\s_-]* );name=([\w\s_-]+);value=(.*?)}}] *)
Definition pipelineparam_regex : regex :=
  Cat (lit (py "{{pipelineparam:op="))
 (Cat (Grp 1 (Rep true 0 None is_param_char))
 (Cat (lit (py ";name="))
 (Cat (Grp 2 (Rep true 1 None is_param_char))
 (Cat (lit (py ";value="))
 (Cat (Grp 3 (Rep false 0 None is_dot))
      (lit (py "}}"))))))).

(** [^[A-Za-z][A-Za-z0-9\s_-]*$] *)
Definition valid_name_regex : regex :=
  Cat Bol (Cat (Chr is_letter) (Cat (Rep true 0 None is_name_char) Eol)).

(** [^[0-9]+(E|Ei|P|Pi|T|Ti|G|Gi|M|Mi|K|Ki){0,1}$] *)
Definition memory_regex : regex :=
  Cat Bol
 (Cat (Rep true 1 None is_digit)
 (Cat (Opt (Grp 1
        (Alt (lit (py "E")) (Alt (lit (py "Ei"))
        (Alt (lit (py "P")) (Alt (lit (py "Pi"))
        (Alt (lit (py "T")) (Alt (lit (py "Ti"))
        (Alt (lit (py "G")) (Alt (lit (py "Gi"))
        (Alt (lit (py "M")) (Alt (lit (py "Mi"))
        (Alt (lit (py "K")) (lit (py "Ki")))))))))))))))
      Eol)).

(** [^[0-9]+m$] *)
Definition cpu_milli_regex : regex :=
  Cat Bol (Cat (Rep true 1 None is_digit) (Cat (lit (py "m")) Eol)).
End Patterns.

(** ** The built-in [int] and [float] on a string *)

Section Builtins.
Context {U : UnicodeDB}.

(** The decimal value of a digit character, ASCII or not. *)
Definition decimal (c : N) : option N :=
  if c <? 128 then (if is_digit c then Some (c - 48) else None)
  else uni_decimal c.

(** Both built-ins first bring the text to ASCII: a white space beyond
    ASCII becomes a blank, a decimal digit becomes its ASCII digit, and
    any other character beyond ASCII becomes a question mark, which no
    number contains. *)
Definition to_ascii (c : N) : N :=
  if c <? 128 then c
  else if is_space c then 32
  else match decimal c with Some d => 48 + d | None => 63 end.

(** The white space they skip around the number: tab to carriage return,
    and the blank. *)
Definition c_isspace (c : N) : bool := in_range 9 13 c || (c =? 32).

Fixpoint lstrip (s : str) : str :=
  match s with
  | c :: t => if c_isspace c then lstrip t else s
  | [] => []
  end.

Definition strip (s : str) : str := reverse (lstrip (reverse (lstrip s))).

(** An underscore stands only between two digits. *)
Fixpoint underscores_ok (prev : N) (s : str) : bool :=
  match s with
  | [] => negb (prev =? 95)
  | c :: t =>
      (if c =? 95 then is_digit prev
       else if prev =? 95 then is_digit c else true)
      && underscores_ok c t
  end.

Definition is_sign (c : N) : bool := (c =? 43) || (c =? 45).

Definition skip_sign (s : str) : str :=
  match s with
  | c :: t => if is_sign c then t else s
  | [] => []
  end.

(** The leading digits, counted, and what follows them. *)
Fixpoint span_digits (s : str) : nat * str :=
  match s with
  | c :: t =>
      if is_digit c then let r := span_digits t in (S r.1, r.2) else (O, s)
  | [] => (O, [])
  end.

Definition lower (c : N) : N := if in_range 65 90 c then c + 32 else c.

(** An unsigned number, [inf], [infinity] or [nan] in any case, or
    digits with an optional point and an optional exponent; at least one
    digit before the exponent and at least one in it. *)
Definition float_body_ok (s : str) : bool :=
  let low := lower <$> s in
  if bool_decide (low = py "inf") || bool_decide (low = py "infinity")
     || bool_decide (low = py "nan")
  then true
  else
    let d1 := span_digits s in
    let d2 := match d1.2 with
              | 46 :: t => span_digits t
              | _ => (O, d1.2)
              end in
    if (d1.1 + d2.1 =? 0)%nat then false
    else match d2.2 with
         | [] => true
         | e :: t =>
             if (e =? 101) || (e =? 69) then
               let d3 := span_digits (skip_sign t) in
               (0 <? d3.1)%nat && bool_decide (d3.2 = [])
             else false
         end.

(** [float(s)] returns a number, rather than raising [ValueError]. *)
Definition py_float_ok (s : str) : bool :=
  let t := strip (to_ascii <$> s) in
  underscores_ok 0 t && float_body_ok (skip_sign (filter (λ c, c ≠ 95) t)).

Definition digits_value (s : str) : Z :=
  foldl (λ acc c, (10 * acc + Z.of_N (c - 48))%Z) 0%Z s.

(** [int(s)]: [None] stands for [ValueError]. *)
Definition py_int (s : str) : option Z :=
  let t := strip (to_ascii <$> s) in
  let neg := match t with c :: _ => c =? 45 | [] => false end in
  let body := skip_sign t in
  if bool_decide (body ≠ []) && forallb (λ c, is_digit c || (c =? 95)) body
     && underscores_ok 0 body
  then
    let v := digits_value (filter (λ c, c ≠ 95) body) in
    Some (if neg then (- v)%Z else v)
  else None.
End Builtins.

(** ** Collaborators of the module *)

(** Modelled from the spec: the [PipelineParam] class of [_pipeline_param],
    whose source is not part of this module.  A parameter reference has a
    name, the name of the producing operation (empty for a pipeline-level
    input) and an optional value.  The constructor takes them in the order
    [name], [op_name], [value]. *)
Record PipelineParam := mkPipelineParam {
  param_name : str;
  param_op_name : str;
  param_value : option str
}.

#[global] Instance PipelineParam_eq_dec : EqDecision PipelineParam.
Proof. solve_decision. Defined.

(** Modelled from the spec: the textual form of a reference,
    [{{pipelineparam:op=<op>;name=<name>;value=<value>}}], written without
    any escaping. *)
Definition serialize (op name value : str) : str :=
  py "{{pipelineparam:op=" ++ op ++ py ";name=" ++ name
    ++ py ";value=" ++ value ++ py "}}".

(** [PipelineParam(x[1], x[0], x[2])] for a tuple [x] of the scanner, which
    lists the operation first. *)
Definition param_of_match (x : str * str * str) : PipelineParam :=
  mkPipelineParam x.1.2 x.1.1 (Some x.2).

(** [needle in hay], on strings. *)
Definition contains (needle hay : str) : Prop :=
  ∃ u w, hay = u ++ needle ++ w.

(** The oldest occurrence of each element, in the order of the list. *)
Fixpoint first_seen {A} `{EqDecision A} (l : list A) : list A :=
  match l with
  | [] => []
  | x :: l' => x :: filter (λ y, y ≠ x) (first_seen l')
  end.

(** [list(set(l))] on the tuples the scanner returns.  A Python set holds
    each element once and is iterated in an order that depends on the hash
    values of the elements, which for strings change from one run of the
    interpreter to the next.  The order is therefore a parameter, of which
    only what the language promises is known. *)
Class SetOrder := {
  list_set : list (str * str * str) → list (str * str * str);
  list_set_NoDup : ∀ l, NoDup (list_set l);
  list_set_elem : ∀ l x, x ∈ list_set l ↔ x ∈ l
}.

(** The [Pipeline] class of [_pipeline], whose source is not part of this
    module either.  [add_op] receives the operation under construction, of
    which only [human_name] is set at that point, and the exit-handler flag;
    it returns the name given to the operation and updates the pipeline. *)
Class Registry := {
  Pipeline : Type;
  add_op : Pipeline → str → bool → str * Pipeline
}.

(** The Kubernetes objects that an operation stores without looking inside. *)
Class K8sModels := {
  V1Volume : Type;
  V1VolumeMount : Type;
  V1EnvVar : Type
}.

(** ** Exceptions and methods *)

Inductive exn :=
| ValueError (msg : str)
| AttributeError (msg : str).

(** A computation on a mutable state [S] that returns an [A] or raises. *)
Definition M (S A : Type) : Type := S → (exn + A) * S.

#[global] Instance M_ret {S} : MRet (M S) := λ A x s, (inr x, s).
#[global] Instance M_bind {S} : MBind (M S) := λ A B f a s,
  match a s with
  | (inr x, s') => f x s'
  | (inl e, s') => (inl e, s')
  end.

Definition raise {S A} (e : exn) : M S A := λ s, (inl e, s).
Definition get {S} : M S S := λ s, (inr s, s).
Definition modify {S} (f : S → S) : M S () := λ s, (inr (), f s).

(** The quotation mark, for the messages that contain one. *)
Definition dquote : str := [34].

Section ContainerOp.
Context {U : UnicodeDB} {O : SetOrder} {R : Registry} {K : K8sModels}.

(** The attributes of an instance, in the order in which [__init__]
    assigns them. *)
Record ContainerOp := mkContainerOp {
  human_name : str;
  name : str;
  image : str;
  command : option (list str);
  arguments : option (list str);
  is_exit_handler : bool;
  resource_limits : gmap str str;
  resource_requests : gmap str str;
  node_selector : gmap str str;
  volumes : list V1Volume;
  volume_mounts : list V1VolumeMount;
  env_variables : list V1EnvVar;
  pod_annotations : gmap str str;
  pod_labels : gmap str str;
  num_retries : Z;
  argument_inputs : list PipelineParam;
  file_outputs : option (gmap str str);
  dependent_op_names : list str;
  inputs : list PipelineParam;
  outputs : gmap str PipelineParam;
  output : option PipelineParam
}.

Definition with_dependent_op_names (v : list str) (o : ContainerOp) :=
  mkContainerOp (human_name o) (name o) (image o) (command o) (arguments o)
    (is_exit_handler o) (resource_limits o) (resource_requests o)
    (node_selector o) (volumes o) (volume_mounts o) (env_variables o)
    (pod_annotations o) (pod_labels o) (num_retries o) (argument_inputs o)
    (file_outputs o) v (inputs o) (outputs o) (output o).

Definition with_resource_limits (v : gmap str str) (o : ContainerOp) :=
  mkContainerOp (human_name o) (name o) (image o) (command o) (arguments o)
    (is_exit_handler o) v (resource_requests o)
    (node_selector o) (volumes o) (volume_mounts o) (env_variables o)
    (pod_annotations o) (pod_labels o) (num_retries o) (argument_inputs o)
    (file_outputs o) (dependent_op_names o) (inputs o) (outputs o) (output o).

Definition with_resource_requests (v : gmap str str) (o : ContainerOp) :=
  mkContainerOp (human_name o) (name o) (image o) (command o) (arguments o)
    (is_exit_handler o) (resource_limits o) v
    (node_selector o) (volumes o) (volume_mounts o) (env_variables o)
    (pod_annotations o) (pod_labels o) (num_retries o) (argument_inputs o)
    (file_outputs o) (dependent_op_names o) (inputs o) (outputs o) (output o).

(** *** The constructor *)

(** [_pipeline.Pipeline.get_default_pipeline()]: the pipeline under
    construction, or [None]. *)
Definition get_default_pipeline : M (option Pipeline) (option Pipeline) := get.

(** [_pipeline.Pipeline.get_default_pipeline().add_op(self, is_exit_handler)] *)
Definition default_pipeline_add_op (human_name : str) (is_exit_handler : bool)
    : M (option Pipeline) str :=
  λ s, match s with
       | Some p => let r := add_op p human_name is_exit_handler in
                   (inr r.1, Some r.2)
       | None => (inl (AttributeError (py "add_op")), s)
       end.

Definition msg_no_pipeline : str := py "Default pipeline not defined.".

Definition msg_bad_name (name : str) : str :=
  py "Only letters, numbers, spaces, " ++ dquote ++ py "_" ++ dquote
    ++ py ", and " ++ dquote ++ py "-" ++ dquote
    ++ py "  are allowed in name. Must begin with letter: " ++ name.

(** The tuples [(op, name, value)] that [re.findall] returns on each
    element of [(command or []) + (arguments or [])], one after another. *)
Definition matches (command arguments : option (list str))
    : list (str * str * str) :=
  arg ← default [] command ++ default [] arguments;
  findall pipelineparam_regex arg.

Definition __init__ (name image : str) (command arguments : option (list str))
    (file_outputs : option (gmap str str)) (is_exit_handler : bool)
    : M (option Pipeline) ContainerOp :=
  p ← get_default_pipeline;
  if negb (bool_decide (is_Some p)) then raise (ValueError msg_no_pipeline)
  else if negb (bool_decide (is_Some (match_ valid_name_regex name)))
  then raise (ValueError (msg_bad_name name))
  else
    self_name ← default_pipeline_add_op name is_exit_handler;
    let argument_inputs :=
      param_of_match <$> list_set (matches command arguments) in
    let inputs := [] ++ argument_inputs in
    let outputs : gmap str PipelineParam :=
      match file_outputs with
      | Some fo =>
          if bool_decide (fo ≠ ∅)
          then map_imap (λ k _, Some (mkPipelineParam k self_name None)) fo
          else ∅
      | None => ∅
      end in
    let output :=
      if (size outputs =? 1)%nat then head (map_to_list outputs).*2
      else None in
    mret (mkContainerOp name self_name image command arguments
            is_exit_handler ∅ ∅ ∅ [] [] [] ∅ ∅ 0%Z argument_inputs
            file_outputs [] inputs outputs output).

(** *** The methods; the state is [self], which each of them returns *)

Definition after (op : ContainerOp) : M ContainerOp () :=
  modify (λ self,
    with_dependent_op_names (dependent_op_names self ++ [name op]) self).

Definition msg_bad_memory : str :=
  py "Invalid memory string. Should be an integer, or integer followed "
    ++ py "by one of " ++ dquote ++ py "E|Ei|P|Pi|T|Ti|G|Gi|M|Mi|K|Ki" ++ dquote.

Definition _validate_memory_string (memory_string : str) : M ContainerOp () :=
  if bool_decide (match_ memory_regex memory_string = None)
  then raise (ValueError msg_bad_memory)
  else mret ().

Definition msg_bad_cpu : str :=
  py "Invalid cpu string. Should be float or integer, or integer followed "
    ++ py "by " ++ dquote ++ py "m" ++ dquote ++ py ".".

Definition _validate_cpu_string (cpu_string : str) : M ContainerOp () :=
  if bool_decide (match_ cpu_milli_regex cpu_string ≠ None) then mret ()
  else if py_float_ok cpu_string then mret ()
  else raise (ValueError msg_bad_cpu).

Definition _validate_positive_number (str_value param_name : str)
    : M ContainerOp () :=
  match py_int str_value with
  | None =>
      raise (ValueError (py "Invalid " ++ param_name ++ py ". Should be integer."))
  | Some int_value =>
      if (int_value <=? 0)%Z
      then raise (ValueError (param_name ++ py " must be positive integer."))
      else mret ()
  end.

Definition add_resource_limit (resource_name value : str) : M ContainerOp () :=
  modify (λ self,
    with_resource_limits (<[resource_name := value]> (resource_limits self)) self).

Definition add_resource_request (resource_name value : str) : M ContainerOp () :=
  modify (λ self,
    with_resource_requests (<[resource_name := value]> (resource_requests self)) self).

Definition set_memory_request (memory : str) : M ContainerOp () :=
  _validate_memory_string memory;; add_resource_request (py "memory") memory.

Definition set_memory_limit (memory : str) : M ContainerOp () :=
  _validate_memory_string memory;; add_resource_limit (py "memory") memory.

Definition set_cpu_request (cpu : str) : M ContainerOp () :=
  _validate_cpu_string cpu;; add_resource_request (py "cpu") cpu.

Definition set_cpu_limit (cpu : str) : M ContainerOp () :=
  _validate_cpu_string cpu;; add_resource_limit (py "cpu") cpu.

(** [vendor] is ["nvidia"] when the caller leaves it out. *)
Definition set_gpu_limit (gpu : str) (vendor : str) : M ContainerOp () :=
  _validate_positive_number gpu (py "gpu");;
  if bool_decide (vendor ≠ py "nvidia") && bool_decide (vendor ≠ py "amd")
  then raise (ValueError (py "vendor can only be nvidia or amd."))
  else add_resource_limit (vendor ++ py ".com/gpu") gpu.

(** *** The other attributes *)

Definition with_node_selector (v : gmap str str) (o : ContainerOp) :=
  mkContainerOp (human_name o) (name o) (image o) (command o) (arguments o)
    (is_exit_handler o) (resource_limits o) (resource_requests o) v
    (volumes o) (volume_mounts o) (env_variables o) (pod_annotations o)
    (pod_labels o) (num_retries o) (argument_inputs o) (file_outputs o)
    (dependent_op_names o) (inputs o) (outputs o) (output o).

Definition with_volumes (v : list V1Volume) (o : ContainerOp) :=
  mkContainerOp (human_name o) (name o) (image o) (command o) (arguments o)
    (is_exit_handler o) (resource_limits o) (resource_requests o)
    (node_selector o) v (volume_mounts o) (env_variables o)
    (pod_annotations o) (pod_labels o) (num_retries o) (argument_inputs o)
    (file_outputs o) (dependent_op_names o) (inputs o) (outputs o)
    (output o).

Definition with_volume_mounts (v : list V1VolumeMount) (o : ContainerOp) :=
  mkContainerOp (human_name o) (name o) (image o) (command o) (arguments o)
    (is_exit_handler o) (resource_limits o) (resource_requests o)
    (node_selector o) (volumes o) v (env_variables o) (pod_annotations o)
    (pod_labels o) (num_retries o) (argument_inputs o) (file_outputs o)
    (dependent_op_names o) (inputs o) (outputs o) (output o).

Definition with_env_variables (v : list V1EnvVar) (o : ContainerOp) :=
  mkContainerOp (human_name o) (name o) (image o) (command o) (arguments o)
    (is_exit_handler o) (resource_limits o) (resource_requests o)
    (node_selector o) (volumes o) (volume_mounts o) v (pod_annotations o)
    (pod_labels o) (num_retries o) (argument_inputs o) (file_outputs o)
    (dependent_op_names o) (inputs o) (outputs o) (output o).

Definition with_pod_annotations (v : gmap str str) (o : ContainerOp) :=
  mkContainerOp (human_name o) (name o) (image o) (command o) (arguments o)
    (is_exit_handler o) (resource_limits o) (resource_requests o)
    (node_selector o) (volumes o) (volume_mounts o) (env_variables o) v
    (pod_labels o) (num_retries o) (argument_inputs o) (file_outputs o)
    (dependent_op_names o) (inputs o) (outputs o) (output o).

Definition with_pod_labels (v : gmap str str) (o : ContainerOp) :=
  mkContainerOp (human_name o) (name o) (image o) (command o) (arguments o)
    (is_exit_handler o) (resource_limits o) (resource_requests o)
    (node_selector o) (volumes o) (volume_mounts o) (env_variables o)
    (pod_annotations o) v (num_retries o) (argument_inputs o)
    (file_outputs o) (dependent_op_names o) (inputs o) (outputs o)
    (output o).

Definition with_num_retries (v : Z) (o : ContainerOp) :=
  mkContainerOp (human_name o) (name o) (image o) (command o) (arguments o)
    (is_exit_handler o) (resource_limits o) (resource_requests o)
    (node_selector o) (volumes o) (volume_mounts o) (env_variables o)
    (pod_annotations o) (pod_labels o) v (argument_inputs o)
    (file_outputs o) (dependent_op_names o) (inputs o) (outputs o)
    (output o).
(** *** The setters without validation *)

Definition add_volume (volume : V1Volume) : M ContainerOp () :=
  modify (λ self, with_volumes (volumes self ++ [volume]) self).

Definition add_volume_mount (volume_mount : V1VolumeMount) : M ContainerOp () :=
  modify (λ self, with_volume_mounts (volume_mounts self ++ [volume_mount]) self).

Definition add_env_variable (env_variable : V1EnvVar) : M ContainerOp () :=
  modify (λ self, with_env_variables (env_variables self ++ [env_variable]) self).

Definition add_node_selector_constraint (label_name value : str)
    : M ContainerOp () :=
  modify (λ self,
    with_node_selector (<[label_name := value]> (node_selector self)) self).

Definition add_pod_annotation (name value : str) : M ContainerOp () :=
  modify (λ self,
    with_pod_annotations (<[name := value]> (pod_annotations self)) self).

Definition add_pod_label (name value : str) : M ContainerOp () :=
  modify (λ self, with_pod_labels (<[name := value]> (pod_labels self)) self).

Definition set_retry (num_retries : Z) : M ContainerOp () :=
  modify (λ self, with_num_retries num_retries self).

End ContainerOp.

(** The names the specification gives to the two errors of the constructor;
    both are raised as [ValueError]. *)
Definition NoActiveGraphError : exn := ValueError msg_no_pipeline.
Definition InvalidNameError (name : str) : exn := ValueError (msg_bad_name name).

(** * Properties *)

(** ** The matcher on literals and on runs *)

Section Matcher.
Local Open Scope nat_scope.
Implicit Types (r b : regex) (c : caps) (n cnt lo : nat) (u v t : str).

(** A literal in front of the text is read, in one way only. *)
Lemma m_lit_app u t n c :
  m (lit u) (Cursor n (u ++ t)) c = [(Cursor (n + length u) t, c)].
Proof.
  revert n. induction u as [|a u IH]; intros n.
  - cbn. by rewrite Nat.add_0_r.
  - change (lit (a :: u)) with (Cat (Chr (N.eqb a)) (lit u)).
    cbn [m rest pos app]. rewrite N.eqb_refl, bind_singleton.
    cbn [fst snd]. rewrite IH. cbn [length]. by rewrite Nat.add_succ_r.
Qed.

Lemma m_cat_lit b u t n c :
  m (Cat (lit u) b) (Cursor n (u ++ t)) c = m b (Cursor (n + length u) t) c.
Proof. cbn [m]. by rewrite m_lit_app, bind_singleton. Qed.

(** A greedy run tries its longest extent first. *)
Lemma rep_greedy_bind {X} (f : cursor → list X) (p : N → bool) lo u t n cnt :
  Forall (λ ch, p ch = true) u →
  match t with ch :: _ => p ch = false | [] => True end →
  lo ≤ cnt + length u →
  ∃ l, rep_greedy p lo None cnt n (u ++ t) ≫= f
         = f (Cursor (n + length u) t) ++ l.
Proof.
  intros Hu Ht. revert n cnt.
  induction Hu as [|a u Ha _ IH]; intros n cnt Hlo.
  - cbn [app length] in *. rewrite Nat.add_0_r in *.
    assert (rep_greedy p lo None cnt n t = [Cursor n t]) as ->.
    { destruct t as [|ch t']; cbn [rep_greedy].
      - by apply Nat.leb_le in Hlo as ->.
      - rewrite Ht. cbn. by apply Nat.leb_le in Hlo as ->. }
    exists []. by rewrite bind_singleton, app_nil_r.
  - cbn [app rep_greedy below length]. rewrite Ha. cbn [andb].
    destruct (IH (S n) (S cnt)) as [l Hl]; [cbn [length] in Hlo; lia|].
    eexists. rewrite bind_app, Hl, Nat.add_succ_r, <-app_assoc. reflexivity.
Qed.

(** A lazy run stops at the first extent after which the rest matches. *)
Lemma rep_lazy_bind {X} (f : cursor → list X) (p : N → bool) v t n cnt :
  Forall (λ ch, p ch = true) v →
  (∀ j, j < length v → f (Cursor (n + j) (drop j v ++ t)) = []) →
  ∃ l, rep_lazy p 0 None cnt n (v ++ t) ≫= f
         = f (Cursor (n + length v) t) ++ l.
Proof.
  intros Hv. revert n cnt.
  induction Hv as [|a v Ha _ IH]; intros n cnt Hf.
  - cbn [app length]. rewrite Nat.add_0_r.
    destruct t; cbn [rep_lazy Nat.leb]; eexists;
      rewrite bind_app, bind_singleton; reflexivity.
  - cbn [app rep_lazy below Nat.leb length]. rewrite Ha. cbn [andb].
    pose proof (Hf 0 ltac:(cbn [length]; lia)) as H0.
    rewrite Nat.add_0_r in H0. cbn [drop app] in H0.
    destruct (IH (S n) (S cnt)) as [l Hl].
    { intros j Hj. specialize (Hf (S j)). cbn [drop length] in Hf.
      rewrite Nat.add_succ_r in Hf. apply Hf. lia. }
    eexists. rewrite bind_cons, H0, Hl, Nat.add_succ_r. reflexivity.
Qed.

(** The same two facts for a group around the run, in a sequence. *)
Lemma m_cat_grp_greedy b (i : nat) (p : N → bool) lo u t n c :
  Forall (λ ch, p ch = true) u →
  match t with ch :: _ => p ch = false | [] => True end →
  lo ≤ length u →
  ∃ l, m (Cat (Grp i (Rep true lo None p)) b) (Cursor n (u ++ t)) c
         = m b (Cursor (n + length u) t) (<[i := u]> c) ++ l.
Proof.
  intros Hu Ht Hlo. cbn [m pos rest]. rewrite !list_fmap_bind.
  edestruct (rep_greedy_bind (X := cursor * caps)) as [l Hl]; [done..| |].
  2: { rewrite Hl. exists l. cbn [compose fst snd pos].
       by rewrite Nat.add_comm, Nat.add_sub, take_app_length. }
  cbn [Nat.add]. done.
Qed.

Lemma m_cat_grp_lazy b (i : nat) (p : N → bool) v t n c :
  Forall (λ ch, p ch = true) v →
  (∀ j c', j < length v → m b (Cursor (n + j) (drop j v ++ t)) c' = []) →
  ∃ l, m (Cat (Grp i (Rep false 0 None p)) b) (Cursor n (v ++ t)) c
         = m b (Cursor (n + length v) t) (<[i := v]> c) ++ l.
Proof.
  intros Hv Hf. cbn [m pos rest]. rewrite !list_fmap_bind.
  edestruct (rep_lazy_bind (X := cursor * caps)) as [l Hl]; [done| |].
  2: { rewrite Hl. exists l. cbn [compose fst snd pos].
       by rewrite Nat.add_comm, Nat.add_sub, take_app_length. }
  intros j Hj. cbn [compose fst snd pos]. by apply Hf.
Qed.

(** Every end of a run lies [k] characters further, the [k] characters of
    the run being in the class. *)
Lemma rep_greedy_elem (p : N → bool) lo (hi : option nat) cnt n t (cur : cursor) :
  cur ∈ rep_greedy p lo hi cnt n t →
  ∃ k, k ≤ length t ∧ cur = Cursor (n + k) (drop k t)
     ∧ Forall (λ ch, p ch = true) (take k t).
Proof.
  revert cnt n. induction t as [|ch t IH]; intros cnt n; cbn [rep_greedy].
  - destruct (lo <=? cnt); cbn [app]; [|by intros ?%elem_of_nil].
    intros ->%list_elem_of_singleton. exists 0.
    by rewrite Nat.add_0_r.
  - intros [Hin|Hin]%elem_of_app.
    + destruct (p ch) eqn:Hp; [|by apply elem_of_nil in Hin].
      destruct (below hi cnt); [|by apply elem_of_nil in Hin].
      apply IH in Hin as (k & Hk & -> & Hall). exists (S k).
      cbn [length drop take]. rewrite Nat.add_succ_r.
      split; [lia|]. split; [done|]. by constructor.
    + destruct (lo <=? cnt); [|by apply elem_of_nil in Hin].
      apply list_elem_of_singleton in Hin as ->. exists 0.
      rewrite Nat.add_0_r. cbn [length drop take]. split; [lia|]. done.
Qed.

Lemma rep_lazy_elem (p : N → bool) lo (hi : option nat) cnt n t (cur : cursor) :
  cur ∈ rep_lazy p lo hi cnt n t →
  ∃ k, k ≤ length t ∧ cur = Cursor (n + k) (drop k t)
     ∧ Forall (λ ch, p ch = true) (take k t).
Proof.
  revert cnt n. induction t as [|ch t IH]; intros cnt n; cbn [rep_lazy].
  - rewrite app_nil_r.
    destruct (lo <=? cnt); [|by intros ?%elem_of_nil].
    intros ->%list_elem_of_singleton. exists 0.
    by rewrite Nat.add_0_r.
  - intros [Hin|Hin]%elem_of_app.
    + destruct (lo <=? cnt); [|by apply elem_of_nil in Hin].
      apply list_elem_of_singleton in Hin as ->. exists 0.
      rewrite Nat.add_0_r. cbn [length drop take]. split; [lia|]. done.
    + destruct (p ch) eqn:Hp; [|by apply elem_of_nil in Hin].
      destruct (below hi cnt); [|by apply elem_of_nil in Hin].
      apply IH in Hin as (k & Hk & -> & Hall). exists (S k).
      cbn [length drop take]. rewrite Nat.add_succ_r.
      split; [lia|]. split; [done|]. by constructor.
Qed.

(** A match ends [k] characters after its start, within the text. *)
Lemma m_advance r (cur : cursor) c (x : cursor * caps) :
  x ∈ m r cur c →
  ∃ k, k ≤ length (rest cur) ∧ pos x.1 = pos cur + k
     ∧ rest x.1 = drop k (rest cur).
Proof.
  revert cur c x.
  induction r as [|p| | |a IHa b IHb|a IHa b IHb|g lo hi p|i a IHa];
    intros cur c x; cbn [m].
  - intros ->%list_elem_of_singleton. exists 0. cbn. split; [lia|]. by rewrite Nat.add_0_r.
  - destruct (rest cur) as [|ch t] eqn:Hr; [by intros ?%elem_of_nil|].
    destruct (p ch); [|by intros ?%elem_of_nil].
    intros ->%list_elem_of_singleton. exists 1. cbn. split; [lia|].
    split; [lia|done].
  - destruct (pos cur =? 0); [|by intros ?%elem_of_nil].
    intros ->%list_elem_of_singleton. exists 0. cbn. split; [lia|]. by rewrite Nat.add_0_r.
  - assert (x ∈ [(cur, c)] → ∃ k, k ≤ length (rest cur)
              ∧ pos x.1 = pos cur + k ∧ rest x.1 = drop k (rest cur)) as H0.
    { intros ->%list_elem_of_singleton. exists 0. cbn. split; [lia|].
      by rewrite Nat.add_0_r. }
    destruct (rest cur) as [|ch [|??]] eqn:Hr; [done| |by intros ?%elem_of_nil].
    destruct (ch =? 10)%N; [done|by intros ?%elem_of_nil].
  - intros (y & Hx & Hy)%list_elem_of_bind.
    apply IHa in Hy as (k1 & Hk1 & Hp1 & Hr1).
    apply IHb in Hx as (k2 & Hk2 & Hp2 & Hr2).
    exists (k1 + k2). rewrite Hr1, length_drop in Hk2.
    rewrite Hp2, Hp1, Hr2, Hr1, drop_drop. split; [lia|]. split; [lia|done].
  - intros [?|?]%elem_of_app; eauto.
  - intros (cur' & -> & Hin)%list_elem_of_fmap. cbn [fst].
    destruct g.
    + apply rep_greedy_elem in Hin as (k & Hk & -> & _). by exists k.
    + apply rep_lazy_elem in Hin as (k & Hk & -> & _). by exists k.
  - intros (y & -> & Hy)%list_elem_of_fmap. cbn [fst]. by apply IHa in Hy.
Qed.

(** The search of [findall] moves forward at every round, so the rounds
    that the length of the text allows are enough: more fuel finds the
    same matches. *)
Lemma findall_from_fuel r (f1 f2 : nat) (cur : cursor) :
  length (rest cur) < f1 → length (rest cur) < f2 →
  findall_from f1 r cur = findall_from f2 r cur.
Proof.
  revert f2 cur. induction f1 as [|f1 IH]; intros f2 cur H1 H2; [lia|].
  destruct f2 as [|f2]; [lia|]. cbn [findall_from].
  assert (match rest cur with
          | [] => []
          | _ :: t => findall_from f1 r (Cursor (S (pos cur)) t)
          end
          = match rest cur with
            | [] => []
            | _ :: t => findall_from f2 r (Cursor (S (pos cur)) t)
            end) as Hskip.
  { destruct (rest cur) as [|ch t] eqn:Hr; [done|].
    apply IH; cbn [rest length] in *; lia. }
  destruct (head (m r cur ∅)) as [[cur' c]|] eqn:Hm; [|done].
  f_equal. destruct (Nat.ltb_spec (pos cur) (pos cur')) as [Hlt|_]; [|done].
  apply head_Some_elem_of, m_advance in Hm as (k & Hk & Hp & Hr).
  cbn [fst] in Hp, Hr. apply IH; rewrite Hr, length_drop; lia.
Qed.

Lemma findall_fuel r (s : str) (extra : nat) :
  findall r s = findall_from (S (length s) + extra) r (Cursor 0 s).
Proof. apply findall_from_fuel; cbn [rest]; lia. Qed.

(** One step of [findall] at a position where the pattern matches some
    text. *)
Lemma findall_from_match (fuel : nat) r (cur cur' : cursor) c :
  head (m r cur ∅) = Some (cur', c) → pos cur < pos cur' →
  findall_from (S fuel) r cur
    = (group c 1, group c 2, group c 3) :: findall_from fuel r cur'.
Proof.
  intros Hm Hlt. cbn [findall_from]. rewrite Hm.
  by apply Nat.ltb_lt in Hlt as ->.
Qed.
End Matcher.

(** ** The scanner on one serialized reference *)

Section Scanner.
Context {U : UnicodeDB}.
Local Open Scope nat_scope.
Implicit Types (op name value tail : str).

(** The closing braces are not read where the text does not start
    with them. *)
Lemma m_close_fails (k : nat) (s : str) (c : caps) :
  (∀ s', s ≠ 125%N :: 125%N :: s') → m (lit (py "}}")) (Cursor k s) c = [].
Proof.
  intros Hs. change (py "}}") with [125%N; 125%N].
  destruct s as [|a [|b s']]; cbn -[N.eqb].
  - done.
  - destruct (125 =? a)%N; reflexivity.
  - destruct (N.eqb_spec 125 a) as [<-|]; [|reflexivity].
    cbn -[N.eqb].
    destruct (N.eqb_spec 125 b) as [<-|]; [|reflexivity].
    by destruct (Hs s').
Qed.

(** Inside a value without [}}] that does not end in [}], the closing
    braces of the token are the first ones met. *)
Lemma value_no_early_close value tail (j : nat) (s' : str) :
  ¬ contains (py "}}") value → last value ≠ Some 125%N →
  j < length value →
  drop j value ++ py "}}" ++ tail ≠ 125%N :: 125%N :: s'.
Proof.
  intros Hc Hl Hj Heq. change (py "}}") with [125%N; 125%N] in *.
  rewrite <-(take_drop j value) in Hc, Hl.
  destruct (drop j value) as [|a [|b w]] eqn:Hd.
  - apply (f_equal length) in Hd. rewrite length_drop in Hd.
    cbn [length] in Hd. lia.
  - injection Heq as -> _. by rewrite last_snoc in Hl.
  - injection Heq as -> -> _. apply Hc. by exists (take j value), w.
Qed.

(** At the start of a serialized reference whose fields obey the
    conditions below, the pattern matches the whole token and its groups
    hold the three fields. *)
Lemma match_token op name value tail (n : nat) :
  Forall (λ ch, is_param_char ch = true) op →
  name ≠ [] → Forall (λ ch, is_param_char ch = true) name →
  Forall (λ ch, is_dot ch = true) value →
  ¬ contains (py "}}") value → last value ≠ Some 125%N →
  head (m pipelineparam_regex (Cursor n (serialize op name value ++ tail)) ∅)
    = Some (Cursor (n + length (serialize op name value)) tail,
            <[3 := value]> (<[2 := name]> (<[1 := op]> ∅))).
Proof.
  intros Hop Hne Hname Hdot Hc Hl.
  unfold serialize, pipelineparam_regex. rewrite <-!app_assoc.
  rewrite m_cat_lit.
  edestruct (m_cat_grp_greedy) as [l1 ->]; [exact Hop|done|cbn; lia|].
  rewrite m_cat_lit.
  edestruct (m_cat_grp_greedy) as [l2 ->];
    [exact Hname|done|by destruct name; cbn; [|lia]|].
  rewrite m_cat_lit.
  edestruct (m_cat_grp_lazy) as [l3 ->]; [exact Hdot| |].
  { intros j c' Hj. apply m_close_fails. intros s'.
    by apply value_no_early_close. }
  rewrite m_lit_app. cbn [app head]. do 2 f_equal. f_equal.
  rewrite !length_app. lia.
Qed.

(** Past the end of the text there is nothing to find. *)
Lemma findall_from_end (fuel n : nat) :
  findall_from fuel pipelineparam_regex (Cursor n []) = [].
Proof. by destruct fuel. Qed.

(** C2, amended.  For an operation name made of the characters of the
    name class, a non-empty parameter name made of them, and a value with
    no line feed, no [}}] inside and no [}] at its end, the scanner reads
    from the serialized reference exactly the triple it was made of. *)
Theorem scan_serialize_roundtrip op name value :
  Forall (λ ch, is_param_char ch = true) op →
  name ≠ [] → Forall (λ ch, is_param_char ch = true) name →
  Forall (λ ch, ch ≠ 10%N) value →
  ¬ contains (py "}}") value → last value ≠ Some 125%N →
  findall pipelineparam_regex (serialize op name value) = [(op, name, value)].
Proof.
  intros Hop Hne Hname Hnl Hc Hl.
  assert (Forall (λ ch, is_dot ch = true) value) as Hdot.
  { eapply Forall_impl; [exact Hnl|]. intros ch Hch. unfold is_dot.
    by apply negb_true_iff, N.eqb_neq. }
  pose proof (match_token op name value [] 0 Hop Hne Hname Hdot Hc Hl) as Hm.
  rewrite app_nil_r in Hm. unfold findall.
  rewrite (findall_from_match _ _ _ _ _ Hm).
  - rewrite findall_from_end. unfold group.
    rewrite (lookup_insert_ne _ 3 1), (lookup_insert_ne _ 2 1) by done.
    rewrite (lookup_insert_ne _ 3 2) by done. by rewrite !lookup_insert_eq.
  - cbn [pos]. unfold serialize. rewrite length_app.
    change (length (py "{{pipelineparam:op=")) with 19. lia.
Qed.
(** What the name pattern accepts, read off the pattern: a letter followed
    by letters, digits, white space, underscores and hyphens.  The dollar
    also stands before a final line feed, which is white space and so is
    accepted either way. *)
Lemma valid_name_spec (nm : str) :
  is_Some (match_ valid_name_regex nm)
  ↔ ∃ ch t, nm = ch :: t ∧ is_letter ch = true
            ∧ Forall (λ x, is_name_char x = true) t.
Proof.
  unfold match_, valid_name_regex. cbn [m pos rest Nat.eqb].
  rewrite bind_singleton. cbn [fst snd rest pos]. split.
  - intros [x Hx]. apply head_Some_elem_of in Hx.
    destruct nm as [|ch t]; [by apply elem_of_nil in Hx|].
    destruct (is_letter ch) eqn:Hch; [|by apply elem_of_nil in Hx].
    rewrite bind_singleton in Hx. cbn [fst snd rest pos] in Hx.
    exists ch, t. split; [done|]. split; [done|].
    rewrite list_fmap_bind in Hx.
    apply list_elem_of_bind in Hx as (cur' & Hx & Hin).
    apply rep_greedy_elem in Hin as (k & Hk & -> & Hall).
    cbn [compose fst snd rest] in Hx.
    rewrite <-(take_drop k t). apply Forall_app. split; [done|].
    destruct (drop k t) as [|x1 [|??]]; [done| |by apply elem_of_nil in Hx].
    destruct (N.eqb_spec x1 10) as [Heq|]; [|by apply elem_of_nil in Hx].
    rewrite Heq. by repeat constructor.
  - intros (ch & t & -> & Hch & Ht). rewrite Hch, bind_singleton.
    cbn [fst snd rest pos m]. rewrite list_fmap_bind.
    match goal with
    | |- context [rep_greedy _ _ _ _ _ _ ≫= ?f] =>
        destruct (rep_greedy_bind f is_name_char 0 t [] 1 0 Ht I) as [l Hl];
          [lia|]
    end.
    rewrite app_nil_r in Hl. rewrite Hl. by eexists.
Qed.
End Scanner.

(** ** Removing duplicates *)

Section Dedup.
Context {O : SetOrder}.

(** [first_seen] keeps every element, once. *)
Lemma first_seen_elem {A} `{EqDecision A} (l : list A) (x : A) :
  x ∈ first_seen l ↔ x ∈ l.
Proof.
  induction l as [|a l IH]; [done|]. cbn [first_seen].
  rewrite !elem_of_cons, list_elem_of_filter, IH.
  destruct (decide (x = a)); tauto.
Qed.

Lemma first_seen_NoDup {A} `{EqDecision A} (l : list A) :
  NoDup (first_seen l).
Proof.
  induction l as [|a l IH]; cbn [first_seen]; [constructor|].
  apply NoDup_cons. split; [|by apply NoDup_filter].
  rewrite list_elem_of_filter. by intros [? _].
Qed.

End Dedup.

Section Constructor.
Context {U : UnicodeDB} {O : SetOrder} {R : Registry} {K : K8sModels}.

(** A call of the constructor that returns has passed both checks, has
    registered the operation, and has built its instance as follows. *)
Lemma init_inv (nm img : str) (cmd args : option (list str))
    (fo : option (gmap str str)) (ieh : bool)
    (st st' : option Pipeline) (node : ContainerOp) :
  __init__ nm img cmd args fo ieh st = (inr node, st') →
  ∃ p, st = Some p
    ∧ is_Some (match_ valid_name_regex nm)
    ∧ st' = Some (add_op p nm ieh).2
    ∧ name node = (add_op p nm ieh).1
    ∧ inputs node = param_of_match <$> list_set (matches cmd args)
    ∧ outputs node =
        map_imap (λ k _, Some (mkPipelineParam k (name node) None))
          (default ∅ fo)
    ∧ output node =
        (if (size (outputs node) =? 1)%nat
         then head (map_to_list (outputs node)).*2 else None)
    ∧ dependent_op_names node = [].
Proof.
  unfold __init__, mbind, M_bind, get_default_pipeline, get.
  destruct st as [p|]; [|discriminate].
  rewrite bool_decide_true by eauto. cbn [negb].
  case_bool_decide as Hn; cbn [negb]; [|discriminate].
  unfold default_pipeline_add_op, mret, M_ret. intros [= <- <-].
  exists p. cbn [name inputs outputs output dependent_op_names].
  repeat split; try done.
  destruct fo as [fo|].
  - change (default ∅ (Some fo)) with fo.
    case_bool_decide as Hfo; [done|].
    destruct (decide (fo = ∅)) as [->|]; [|done]. by rewrite map_imap_empty.
  - change (default ∅ None) with (∅ : gmap str str). by rewrite map_imap_empty.
Qed.

(** One output per key: [map_imap] with a total function keeps the size. *)
Lemma size_imap_total {A B} (g : str → B) (m : gmap str A) :
  size (map_imap (λ k _, Some (g k)) m) = size m.
Proof.
  induction m as [|k x m Hk _ IH] using map_first_key_ind.
  - by rewrite map_imap_empty, !map_size_empty.
  - rewrite (map_imap_insert_Some _ _ _ _ (g k)) by done.
    rewrite !map_size_insert_None; [by rewrite IH|done|].
    by rewrite map_lookup_imap, Hk.
Qed.

Lemma size_1_singleton {A} (m : gmap str A) :
  size m = 1%nat → ∃ k x, m = {[k := x]}.
Proof.
  induction m as [|k x m Hk _ _] using map_first_key_ind.
  - by rewrite map_size_empty.
  - rewrite map_size_insert_None by done. intros [= Hm].
    apply map_size_empty_inv in Hm as ->. by exists k, x.
Qed.

(** C5. Whatever the arguments, constructing an operation while no
    default pipeline is defined raises the no-active-graph error, and
    nothing else happens: the state is the one before the call. *)
Theorem init_no_pipeline (nm img : str) (cmd args : option (list str))
    (fo : option (gmap str str)) (ieh : bool) :
  __init__ nm img cmd args fo ieh None = (inl NoActiveGraphError, None).
Proof. reflexivity. Qed.
(** C6. A display name that the name pattern does not match makes the
    constructor raise the invalid-name error inside an active pipeline,
    and the pipeline is left as it was: the operation is not registered,
    so the number of its operations, like anything else read from it, is
    unchanged. *)
Theorem init_invalid_name (nm img : str) (cmd args : option (list str))
    (fo : option (gmap str str)) (ieh : bool) (p : Pipeline) :
  match_ valid_name_regex nm = None →
  __init__ nm img cmd args fo ieh (Some p)
    = (inl (InvalidNameError nm), Some p)
  ∧ ∀ (count : Pipeline → nat),
      count <$> (__init__ nm img cmd args fo ieh (Some p)).2
        = Some (count p).
Proof.
  intros Hn.
  assert (__init__ nm img cmd args fo ieh (Some p)
            = (inl (InvalidNameError nm), Some p)) as ->; [|done].
  unfold __init__, mbind, M_bind, get_default_pipeline, get.
  rewrite bool_decide_true by eauto. cbn [negb].
  rewrite bool_decide_false; [done|]. rewrite Hn. by intros [? ?].
Qed.

(** C4. A constructed operation has one output per key of the declared
    outputs and none besides; the output of a key carries the name of the
    operation as producer, the key as name, and no value.  With exactly
    one declared key, that reference is also the default output. *)
Theorem init_outputs (nm img : str) (cmd args : option (list str))
    (fo : option (gmap str str)) (ieh : bool)
    (st st' : option Pipeline) (node : ContainerOp) :
  __init__ nm img cmd args fo ieh st = (inr node, st') →
  dom (outputs node) = dom (default ∅ fo)
  ∧ size (outputs node) = size (default ∅ fo)
  ∧ (∀ k, k ∈ dom (default ∅ fo) →
       outputs node !! k = Some (mkPipelineParam k (name node) None))
  ∧ (size (default ∅ fo) = 1%nat →
       ∃ k, dom (default ∅ fo) = {[k]}
         ∧ output node = Some (mkPipelineParam k (name node) None)).
Proof.
  intros (p & _ & _ & _ & _ & _ & Ho & Hd & _)%init_inv.
  assert (∀ k, outputs node !! k =
            (λ _, mkPipelineParam k (name node) None) <$> default ∅ fo !! k)
    as Hl.
  { intros k. rewrite Ho, map_lookup_imap. by destruct (_ !! k). }
  assert (size (outputs node) = size (default ∅ fo)) as Hs.
  { rewrite Ho. apply (size_imap_total (λ k, mkPipelineParam k (name node) None)). }
  split; [|split; [done|split]].
  - apply set_eq. intros k. rewrite !elem_of_dom, Hl. apply fmap_is_Some.
  - intros k [v Hv]%elem_of_dom. by rewrite Hl, Hv.
  - intros H1. destruct (size_1_singleton _ H1) as (k & v & Hfo).
    exists k. split; [by rewrite Hfo, dom_singleton_L|].
    rewrite Hd, Hs, H1. cbn [Nat.eqb].
    assert (outputs node = {[k := mkPipelineParam k (name node) None]}) as ->.
    { apply map_eq. intros j. rewrite Hl, Hfo.
      destruct (decide (k = j)) as [->|].
      - by rewrite !lookup_singleton_eq.
      - by rewrite !lookup_singleton_ne. }
    by rewrite map_to_list_singleton.
Qed.

(** C9. A constructed operation whose declared outputs are absent, empty
    or more than one has its default output set, to [None]. *)
Theorem init_output_none (nm img : str) (cmd args : option (list str))
    (fo : option (gmap str str)) (ieh : bool)
    (st st' : option Pipeline) (node : ContainerOp) :
  __init__ nm img cmd args fo ieh st = (inr node, st') →
  size (default ∅ fo) ≠ 1%nat →
  output node = None.
Proof.
  intros (p & _ & _ & _ & _ & _ & Ho & Hd & _)%init_inv Hs.
  rewrite Hd, Ho.
  rewrite (size_imap_total (λ k, mkPipelineParam k (name node) None)).
  by apply Nat.eqb_neq in Hs as ->.
Qed.
#[local] Instance param_of_match_inj : Inj (=) (=) param_of_match.
Proof. intros [[??]?] [[??]?] [=]. by simplify_eq. Qed.


End Constructor.

Section Methods.
Context {U : UnicodeDB} {K : K8sModels}.

(** C7. [a.after(b)] returns normally, appends the name of [b] to the
    dependencies of [a], and leaves [inputs] and every other attribute
    of [a] as it was. *)
Theorem after_appends (a b : ContainerOp) :
  (after b a).1 = inr ()
  ∧ dependent_op_names (after b a).2 = dependent_op_names a ++ [name b]
  ∧ inputs (after b a).2 = inputs a
  ∧ human_name (after b a).2 = human_name a
  ∧ name (after b a).2 = name a
  ∧ image (after b a).2 = image a
  ∧ command (after b a).2 = command a
  ∧ arguments (after b a).2 = arguments a
  ∧ is_exit_handler (after b a).2 = is_exit_handler a
  ∧ resource_limits (after b a).2 = resource_limits a
  ∧ resource_requests (after b a).2 = resource_requests a
  ∧ node_selector (after b a).2 = node_selector a
  ∧ volumes (after b a).2 = volumes a
  ∧ volume_mounts (after b a).2 = volume_mounts a
  ∧ env_variables (after b a).2 = env_variables a
  ∧ pod_annotations (after b a).2 = pod_annotations a
  ∧ pod_labels (after b a).2 = pod_labels a
  ∧ num_retries (after b a).2 = num_retries a
  ∧ argument_inputs (after b a).2 = argument_inputs a
  ∧ file_outputs (after b a).2 = file_outputs a
  ∧ outputs (after b a).2 = outputs a
  ∧ output (after b a).2 = output a.
Proof. repeat split. Qed.

(** A validation that raises does so without touching the operation. *)
Lemma bind_raise {S A B} (a : M S A) (f : A → M S B) (s : S) (e : exn) :
  a s = (inl e, s) → (a ≫= f) s = (inl e, s).
Proof. unfold mbind, M_bind. by intros ->. Qed.

Lemma bind_ret {S A B} (a : M S A) (f : A → M S B) (s : S) (x : A) :
  a s = (inr x, s) → (a ≫= f) s = f x s.
Proof. unfold mbind, M_bind. by intros ->. Qed.

Lemma validate_memory_raises (memory : str) (self : ContainerOp) :
  match_ memory_regex memory = None →
  _validate_memory_string memory self = (inl (ValueError msg_bad_memory), self).
Proof. intros H. unfold _validate_memory_string. by rewrite bool_decide_true. Qed.

Lemma validate_cpu_raises (cpu : str) (self : ContainerOp) :
  match_ cpu_milli_regex cpu = None → py_float_ok cpu = false →
  _validate_cpu_string cpu self = (inl (ValueError msg_bad_cpu), self).
Proof.
  intros H1 H2. unfold _validate_cpu_string.
  rewrite bool_decide_false by (by rewrite H1; intros ?). by rewrite H2.
Qed.

Lemma validate_cpu_returns (cpu : str) (self : ContainerOp) :
  match_ cpu_milli_regex cpu ≠ None ∨ py_float_ok cpu = true →
  _validate_cpu_string cpu self = (inr (), self).
Proof.
  intros H. unfold _validate_cpu_string. case_bool_decide; [done|].
  destruct H as [?| ->]; done.
Qed.

(** Any of the five setters that raises leaves the operation as it was. *)
Lemma setters_keep_state_on_error (s vendor : str) (self : ContainerOp) (e : exn) :
  (∀ f, f ∈ [set_memory_request s; set_memory_limit s; set_cpu_request s;
             set_cpu_limit s; set_gpu_limit s vendor] →
        (f self).1 = inl e → (f self).2 = self).
Proof.
  intros f Hf. repeat (apply elem_of_cons in Hf as [->|Hf]);
    [| | | | |by apply elem_of_nil in Hf].
  - unfold set_memory_request, _validate_memory_string, mbind, M_bind.
    by case_bool_decide.
  - unfold set_memory_limit, _validate_memory_string, mbind, M_bind.
    by case_bool_decide.
  - unfold set_cpu_request, _validate_cpu_string, mbind, M_bind.
    case_bool_decide; [done|]. by destruct (py_float_ok s).
  - unfold set_cpu_limit, _validate_cpu_string, mbind, M_bind.
    case_bool_decide; [done|]. by destruct (py_float_ok s).
  - unfold set_gpu_limit, _validate_positive_number, mbind, M_bind.
    destruct (py_int s) as [n|]; [|done].
    destruct (n <=? 0)%Z; [done|]. cbn.
    by destruct (bool_decide _ && bool_decide _).
Qed.

(** C8. A memory setter on a string that the memory pattern does not
    match, a cpu setter on a string that is neither a count of
    millicores nor a float, and the gpu setter on a string that is not
    an integer, on an integer that is not positive, or with a vendor
    other than nvidia and amd, all raise [ValueError] and leave every
    attribute of the operation as it was before the call; and whenever
    one of these five setters raises, for whatever reason, the operation
    is as it was before the call. *)
Theorem setters_strong_exception_safety (s vendor : str) (self : ContainerOp) :
  (match_ memory_regex s = None →
     set_memory_request s self = (inl (ValueError msg_bad_memory), self)
     ∧ set_memory_limit s self = (inl (ValueError msg_bad_memory), self))
  ∧ (match_ cpu_milli_regex s = None → py_float_ok s = false →
     set_cpu_request s self = (inl (ValueError msg_bad_cpu), self)
     ∧ set_cpu_limit s self = (inl (ValueError msg_bad_cpu), self))
  ∧ (py_int s = None ∨ (∃ n, py_int s = Some n ∧ (n ≤ 0)%Z)
       ∨ (vendor ≠ py "nvidia" ∧ vendor ≠ py "amd") →
     ∃ msg, set_gpu_limit s vendor self = (inl (ValueError msg), self))
  ∧ (∀ f e,
       f ∈ [set_memory_request s; set_memory_limit s; set_cpu_request s;
            set_cpu_limit s; set_gpu_limit s vendor] →
       (f self).1 = inl e → (f self).2 = self).
Proof.
  split; [|split; [|split]]; [| | |by intros f e; apply setters_keep_state_on_error].
  - intros H. split; apply bind_raise, validate_memory_raises, H.
  - intros H1 H2. split; by apply bind_raise, validate_cpu_raises.
  - intros H. unfold set_gpu_limit, _validate_positive_number, mbind, M_bind.
    destruct (py_int s) as [n|] eqn:Hn; [|by eexists].
    destruct (Z.leb_spec n 0) as [Hle|Hgt]; [by eexists|].
    destruct H as [?|[(n' & [= <-] & ?)|[H1 H2]]]; [done|lia|].
    cbn. rewrite !bool_decide_true by done. by eexists.
Qed.

(** C10. A cpu setter raises exactly when its string is neither digits
    followed by [m] nor a text that [float] reads, and then it raises the
    error of the cpu validation.  A text that [float]
    reads is stored under the key [cpu], whatever number it denotes: a
    negative number, an infinity, a not-a-number or a number with an
    exponent are all accepted.  After the call the key [cpu] of the
    requests, or of the limits, reads back as the text given, and the
    other keys read as before. *)
Theorem cpu_setters_accept_floats (cpu : str) (self : ContainerOp) :
  ((∃ e, (set_cpu_request cpu self).1 = inl e)
     ↔ match_ cpu_milli_regex cpu = None ∧ py_float_ok cpu = false)
  ∧ ((∃ e, (set_cpu_limit cpu self).1 = inl e)
     ↔ match_ cpu_milli_regex cpu = None ∧ py_float_ok cpu = false)
  ∧ (match_ cpu_milli_regex cpu = None → py_float_ok cpu = false →
       set_cpu_request cpu self = (inl (ValueError msg_bad_cpu), self)
       ∧ set_cpu_limit cpu self = (inl (ValueError msg_bad_cpu), self))
  ∧ (py_float_ok cpu = true →
       set_cpu_request cpu self
         = (inr (), with_resource_requests
                      (<[py "cpu" := cpu]> (resource_requests self)) self)
       ∧ set_cpu_limit cpu self
         = (inr (), with_resource_limits
                      (<[py "cpu" := cpu]> (resource_limits self)) self))
  ∧ (match_ cpu_milli_regex cpu ≠ None ∨ py_float_ok cpu = true →
       resource_requests (set_cpu_request cpu self).2 !! py "cpu" = Some cpu
       ∧ (∀ k, k ≠ py "cpu" →
            resource_requests (set_cpu_request cpu self).2 !! k
              = resource_requests self !! k)
       ∧ resource_limits (set_cpu_limit cpu self).2 !! py "cpu" = Some cpu
       ∧ (∀ k, k ≠ py "cpu" →
            resource_limits (set_cpu_limit cpu self).2 !! k
              = resource_limits self !! k))
  ∧ py_float_ok (py "-1") = true
  ∧ py_float_ok (py "-0.5") = true
  ∧ py_float_ok (py "inf") = true
  ∧ py_float_ok (py "nan") = true
  ∧ py_float_ok (py "1e3") = true.
Proof.
  assert (∀ f : str → str → M ContainerOp (),
            (∀ r v o, (f r v o).1 = inr ()) →
            (∃ e, ((_validate_cpu_string cpu;; f (py "cpu") cpu) self).1 = inl e)
            ↔ match_ cpu_milli_regex cpu = None ∧ py_float_ok cpu = false) as Hiff.
  { intros f Hf. split.
    - intros [e He]. destruct (match_ cpu_milli_regex cpu) eqn:Hm.
      + rewrite (bind_ret _ _ _ ()) in He
          by (apply validate_cpu_returns; left; by rewrite Hm).
        by rewrite Hf in He.
      + split; [done|]. destruct (py_float_ok cpu) eqn:Hfl; [|done].
        rewrite (bind_ret _ _ _ ()) in He
          by (apply validate_cpu_returns; by right).
        by rewrite Hf in He.
    - intros [H1 H2]. eexists.
      by rewrite (bind_raise _ _ _ _ (validate_cpu_raises _ _ H1 H2)). }
  split; [by apply (Hiff add_resource_request)|].
  split; [by apply (Hiff add_resource_limit)|].
  split; [intros H1 H2; split; by apply bind_raise, validate_cpu_raises|].
  split.
  { intros Hfl. unfold set_cpu_request, set_cpu_limit.
    by rewrite !(bind_ret _ _ _ ()) by (apply validate_cpu_returns; by right). }
  split; [|by vm_compute].
  intros Hv. unfold set_cpu_request, set_cpu_limit.
  rewrite !(bind_ret _ _ _ ()) by (by apply validate_cpu_returns).
  cbn [add_resource_request add_resource_limit modify snd resource_requests
       resource_limits with_resource_requests with_resource_limits].
  rewrite !lookup_insert_eq.
  by repeat split; try (intros k Hk; by rewrite lookup_insert_ne).
Qed.
End Methods.

(** * Examples on concrete runs *)

(** A runtime whose sets are iterated in first-seen order, and one whose
    sets are iterated the other way round.  Both orders occur: a set of
    tuples of strings is laid out by hash values that change with the seed
    of the interpreter. *)
Definition first_seen_order : SetOrder :=
  {| list_set := first_seen;
     list_set_NoDup := first_seen_NoDup;
     list_set_elem := first_seen_elem |}.

Lemma last_seen_NoDup (l : list (str * str * str)) : NoDup (reverse (first_seen l)).
Proof. rewrite reverse_Permutation. apply first_seen_NoDup. Qed.

Lemma last_seen_elem (l : list (str * str * str)) (x : str * str * str) :
  x ∈ reverse (first_seen l) ↔ x ∈ l.
Proof. by rewrite elem_of_reverse, first_seen_elem. Qed.

Definition reversed_order : SetOrder :=
  {| list_set := λ l, reverse (first_seen l);
     list_set_NoDup := last_seen_NoDup;
     list_set_elem := last_seen_elem |}.

(** A pipeline that records the names of its operations and hands each
    operation its own display name. *)
Definition name_registry : Registry :=
  {| Pipeline := list str; add_op := λ p human_name _, (human_name, p ++ [human_name]) |}.

(** No Kubernetes object is attached in the examples. *)
Definition no_k8s : K8sModels :=
  {| V1Volume := Empty_set; V1VolumeMount := Empty_set; V1EnvVar := Empty_set |}.

(** An operation as the constructor leaves it, for the examples on methods. *)
Definition sample_op : @ContainerOp no_k8s :=
  mkContainerOp (py "train") (py "train") (py "python:3.5-jessie") None None
    false ∅ ∅ ∅ [] [] [] ∅ ∅ 0%Z [] None [] [] ∅ None.

Definition two_params : str :=
  py "{{pipelineparam:op=a;name=x;value=1}} {{pipelineparam:op=b;name=y;value=2}}".


(** C2, the claim as stated fails: the value [}] holds no [}}], yet the
    token made of it reads back with an empty value. *)
Lemma roundtrip_fails_on_closing_brace :
  ¬ (∀ (U : UnicodeDB) (op name value : str),
       Forall (λ ch, is_param_char ch = true) op →
       name ≠ [] → Forall (λ ch, is_param_char ch = true) name →
       ¬ contains (py "}}") value →
       findall pipelineparam_regex (serialize op name value)
         = [(op, name, value)]).
Proof.
  intros H. specialize (H ascii_db (py "a") (py "x") (py "}")).
  assert (findall (@pipelineparam_regex ascii_db)
            (serialize (py "a") (py "x") (py "}"))
          = [(py "a", py "x", [])]) as E by (by vm_compute).
  rewrite E in H. discriminate H.
  - by repeat constructor.
  - done.
  - by repeat constructor.
  - intros (u & w & Huw). apply (f_equal length) in Huw.
    rewrite !length_app in Huw.
    change (length (py "}")) with 1%nat in Huw.
    change (length (py "}}")) with 2%nat in Huw. lia.
Qed.

(** A value with a line feed is not read back either: the token is not
    found at all. *)
Example roundtrip_fails_on_line_feed :
  findall (@pipelineparam_regex ascii_db)
    (serialize (py "a") (py "x") [49; 10; 50]) = [].
Proof. by vm_compute. Qed.

(** The construction used in the examples: the operation [train] with one
    declared output, in an empty pipeline. *)
Definition sample_outputs : gmap str str := {[py "model" := py "/out/model"]}.

Definition sample_init : M (option (list str)) (@ContainerOp no_k8s) :=
  @__init__ ascii_db reversed_order name_registry no_k8s
    (py "train") (py "python:3.5-jessie") (Some [two_params]) None
    (Some sample_outputs) false.

Lemma sample_init_returns :
  ∃ node, sample_init (Some []) = (inr node, Some [py "train"]).
Proof. eexists. vm_compute. reflexivity. Defined.

(** The round trip of the triple [(a, x, 1)]. *)
Lemma scan_serialize_roundtrip_witness :
  findall (@pipelineparam_regex ascii_db) (serialize (py "a") (py "x") (py "1"))
    = [(py "a", py "x", py "1")].
Proof.
  apply (@scan_serialize_roundtrip ascii_db).
  - by repeat constructor.
  - discriminate.
  - by repeat constructor.
  - by repeat constructor.
  - intros (u & w & Huw). apply (f_equal length) in Huw.
    rewrite !length_app in Huw.
    change (length (py "1")) with 1%nat in Huw.
    change (length (py "}}")) with 2%nat in Huw. lia.
  - discriminate.
Defined.


Definition echo_twice : str :=
  py "echo {{pipelineparam:op=a;name=x;value=1}} {{pipelineparam:op=a;name=x;value=1}}".


Lemma init_outputs_witness :
  ∃ node st', sample_init (Some []) = (inr node, st')
    ∧ dom (outputs node) = {[py "model"]}
    ∧ size (outputs node) = 1%nat
    ∧ outputs node !! py "model"
        = Some (mkPipelineParam (py "model") (name node) None)
    ∧ output node = Some (mkPipelineParam (py "model") (name node) None).
Proof.
  destruct sample_init_returns as [node E]. exists node; eexists.
  split; [exact E|]. unfold sample_init in E.
  destruct (@init_outputs ascii_db reversed_order name_registry no_k8s
           _ _ _ _ _ _ _ _ _ E) as (Hd & Hs & Hl & H1).
  change (default ∅ (Some sample_outputs)) with sample_outputs in *.
  unfold sample_outputs in *.
  rewrite dom_singleton_L in Hd. rewrite map_size_singleton in Hs.
  split; [exact Hd|]. split; [exact Hs|]. split.
  - apply Hl. rewrite dom_singleton_L. by apply elem_of_singleton.
  - destruct H1 as (k & Hk & Ho); [apply map_size_singleton|].
    rewrite dom_singleton_L in Hk.
    assert (k = py "model") as ->; [|exact Ho].
    symmetry. apply (elem_of_singleton (C := gset str)).
    rewrite <-Hk. by apply elem_of_singleton.
Defined.

Lemma init_output_none_witness :
  ∃ node st',
    @__init__ ascii_db reversed_order name_registry no_k8s
      (py "echo") (py "busybox") None None None false (Some [])
      = (inr node, st')
    ∧ output node = None.
Proof.
  assert (∃ node,
    @__init__ ascii_db reversed_order name_registry no_k8s
      (py "echo") (py "busybox") None None None false (Some [])
      = (inr node, Some [py "echo"])) as [node E].
  { eexists. vm_compute. reflexivity. }
  exists node; eexists. split; [exact E|].
  apply (@init_output_none ascii_db reversed_order name_registry no_k8s
           _ _ _ _ _ _ _ _ _ E).
  change (default ∅ None) with (∅ : gmap str str).
  by rewrite map_size_empty.
Defined.

Lemma init_invalid_name_witness :
  match_ (@valid_name_regex ascii_db) (py "1st step") = None
  ∧ @__init__ ascii_db reversed_order name_registry no_k8s
      (py "1st step") (py "busybox") None None None false (Some [py "train"])
      = (inl (InvalidNameError (py "1st step")), Some [py "train"]).
Proof.
  assert (match_ (@valid_name_regex ascii_db) (py "1st step") = None) as Hn
    by (vm_compute; reflexivity).
  split; [exact Hn|].
  exact (proj1 (@init_invalid_name ascii_db reversed_order name_registry no_k8s
                  _ _ _ _ _ _ _ Hn)).
Defined.

Lemma setters_strong_exception_safety_witness :
  @set_memory_request no_k8s (py "10GB") sample_op
    = (inl (ValueError msg_bad_memory), sample_op)
  ∧ @set_cpu_limit ascii_db no_k8s (py "two") sample_op
    = (inl (ValueError msg_bad_cpu), sample_op)
  ∧ ∃ msg, @set_gpu_limit ascii_db no_k8s (py "0") (py "nvidia") sample_op
             = (inl (ValueError msg), sample_op).
Proof.
  split; [|split].
  - apply (proj1 (@setters_strong_exception_safety ascii_db no_k8s
                    (py "10GB") (py "nvidia") sample_op)).
    vm_compute. reflexivity.
  - apply (proj1 (proj2 (@setters_strong_exception_safety ascii_db no_k8s
                           (py "two") (py "nvidia") sample_op)));
      vm_compute; reflexivity.
  - apply (proj1 (proj2 (proj2 (@setters_strong_exception_safety ascii_db no_k8s
                                  (py "0") (py "nvidia") sample_op)))).
    right. left. exists 0%Z. split; [vm_compute; reflexivity|lia].
Defined.

Lemma cpu_setters_accept_floats_witness :
  @py_float_ok ascii_db (py "inf") = true
  ∧ @set_cpu_limit ascii_db no_k8s (py "inf") sample_op
    = (inr (), with_resource_limits
                 (<[py "cpu" := py "inf"]> (resource_limits sample_op)) sample_op)
  ∧ resource_limits (@set_cpu_limit ascii_db no_k8s (py "inf") sample_op).2
      !! py "cpu" = Some (py "inf")
  ∧ resource_requests (@set_cpu_request ascii_db no_k8s (py "inf") sample_op).2
      !! py "cpu" = Some (py "inf").
Proof.
  assert (@py_float_ok ascii_db (py "inf") = true) as Hf
    by (vm_compute; reflexivity).
  pose proof (@cpu_setters_accept_floats ascii_db no_k8s (py "inf") sample_op)
    as (_ & _ & _ & Hstored & Hread & _).
  destruct (Hread (or_intror Hf)) as (Hreq & _ & Hlim & _).
  split; [exact Hf|]. split; [exact (proj2 (Hstored Hf))|].
  split; [exact Hlim|exact Hreq].
Defined.

(** * Further properties of the module *)

(** ** What the scanner finds is in the text *)

Section ScannerSound.
Context {U : UnicodeDB}.
Local Open Scope nat_scope.
Implicit Types (r b : regex) (c : caps) (cur : cursor) (x : cursor * caps).

(** The ends of a run, with the least length that the run must have. *)
Lemma rep_greedy_run (p : N → bool) lo (hi : option nat) cnt n (t : str) cur :
  cur ∈ rep_greedy p lo hi cnt n t →
  ∃ k, cur = Cursor (n + k) (drop k t) ∧ lo ≤ cnt + k
     ∧ Forall (λ ch, p ch = true) (take k t).
Proof.
  revert cnt n. induction t as [|ch t IH]; intros cnt n; cbn [rep_greedy].
  - destruct (Nat.leb_spec lo cnt); cbn [app]; [|by intros ?%elem_of_nil].
    intros ->%list_elem_of_singleton. exists 0.
    rewrite !Nat.add_0_r. by split; [|split].
  - intros [Hin|Hin]%elem_of_app.
    + destruct (p ch) eqn:Hp; [|by apply elem_of_nil in Hin].
      destruct (below hi cnt); [|by apply elem_of_nil in Hin].
      apply IH in Hin as (k & -> & Hk & Hall). exists (S k).
      cbn [drop take]. rewrite !Nat.add_succ_r.
      split; [done|]. split; [cbn in Hk; lia|]. by constructor.
    + destruct (Nat.leb_spec lo cnt); [|by apply elem_of_nil in Hin].
      apply list_elem_of_singleton in Hin as ->. exists 0.
      rewrite !Nat.add_0_r. by split; [|split].
Qed.

Lemma rep_lazy_run (p : N → bool) lo (hi : option nat) cnt n (t : str) cur :
  cur ∈ rep_lazy p lo hi cnt n t →
  ∃ k, cur = Cursor (n + k) (drop k t) ∧ lo ≤ cnt + k
     ∧ Forall (λ ch, p ch = true) (take k t).
Proof.
  revert cnt n. induction t as [|ch t IH]; intros cnt n; cbn [rep_lazy].
  - rewrite app_nil_r.
    destruct (Nat.leb_spec lo cnt); [|by intros ?%elem_of_nil].
    intros ->%list_elem_of_singleton. exists 0.
    rewrite !Nat.add_0_r. by split; [|split].
  - intros [Hin|Hin]%elem_of_app.
    + destruct (Nat.leb_spec lo cnt); [|by apply elem_of_nil in Hin].
      apply list_elem_of_singleton in Hin as ->. exists 0.
      rewrite !Nat.add_0_r. by split; [|split].
    + destruct (p ch) eqn:Hp; [|by apply elem_of_nil in Hin].
      destruct (below hi cnt); [|by apply elem_of_nil in Hin].
      apply IH in Hin as (k & -> & Hk & Hall). exists (S k).
      cbn [drop take]. rewrite !Nat.add_succ_r.
      split; [done|]. split; [cbn in Hk; lia|]. by constructor.
Qed.

(** A literal is read only where the text starts with it. *)
Lemma m_lit_elem (u : str) cur c x :
  x ∈ m (lit u) cur c →
  rest cur = u ++ rest x.1 ∧ x.2 = c ∧ pos x.1 = pos cur + length u.
Proof.
  revert cur. induction u as [|a u IH]; intros cur.
  - cbn. intros ->%list_elem_of_singleton. cbn. by rewrite Nat.add_0_r.
  - change (lit (a :: u)) with (Cat (Chr (N.eqb a)) (lit u)). cbn [m].
    intros (y & Hx & Hy)%list_elem_of_bind.
    destruct (rest cur) as [|ch t] eqn:Hr; [by apply elem_of_nil in Hy|].
    destruct (N.eqb_spec a ch) as [<-|]; [|by apply elem_of_nil in Hy].
    apply list_elem_of_singleton in Hy as ->. cbn [fst snd] in Hx.
    apply IH in Hx as (Ht & Hc & Hp). cbn [rest pos] in Ht, Hp.
    rewrite Ht, Hp. cbn [length app]. split; [done|]. split; [done|lia].
Qed.

Lemma m_cat_lit_elem b (u : str) cur c x :
  x ∈ m (Cat (lit u) b) cur c →
  ∃ t, rest cur = u ++ t ∧ x ∈ m b (Cursor (pos cur + length u) t) c.
Proof.
  cbn [m]. intros ([cur' c'] & Hx & Hy)%list_elem_of_bind.
  apply m_lit_elem in Hy as (Ht & Hc & Hp). cbn [fst snd] in *.
  exists (rest cur'). split; [done|]. rewrite <-Hp, <-Hc. by destruct cur'.
Qed.

Lemma m_cat_grp_rep_elem b (i : nat) (g : bool) lo (p : N → bool) cur c x :
  x ∈ m (Cat (Grp i (Rep g lo None p)) b) cur c →
  ∃ w t, rest cur = w ++ t ∧ Forall (λ ch, p ch = true) w ∧ lo ≤ length w
       ∧ x ∈ m b (Cursor (pos cur + length w) t) (<[i := w]> c).
Proof.
  cbn [m]. intros (y & Hx & Hy)%list_elem_of_bind.
  apply list_elem_of_fmap in Hy as (z & -> & Hz).
  apply list_elem_of_fmap in Hz as (cur' & -> & Hin).
  cbn [fst snd] in Hx.
  assert (∃ k, cur' = Cursor (pos cur + k) (drop k (rest cur)) ∧ lo ≤ 0 + k
             ∧ Forall (λ ch, p ch = true) (take k (rest cur)))
    as (k & -> & Hk & Hall).
  { destruct g; [by apply rep_greedy_run in Hin|by apply rep_lazy_run in Hin]. }
  cbn [pos] in Hx. rewrite Nat.add_comm, Nat.add_sub in Hx.
  destruct (decide (k ≤ length (rest cur))) as [Hle|Hgt].
  - exists (take k (rest cur)), (drop k (rest cur)).
    rewrite take_drop, length_take, Nat.min_l by done.
    split; [done|]. split; [done|]. split; [lia|].
    by rewrite (Nat.add_comm (pos cur)).
  - exists (rest cur), [].
    rewrite take_ge in Hx, Hall by lia. rewrite drop_ge in Hx by lia.
    rewrite app_nil_r. split; [done|]. split; [done|].
    assert (k = length (rest cur)) as Hk'; [|rewrite Hk' in *; split; [lia|]].
    2: by rewrite (Nat.add_comm (pos cur)).
    exfalso. apply Hgt. clear Hx.
    destruct g.
    + apply rep_greedy_elem in Hin as (k' & Hk' & [= Hp _] & _). lia.
    + apply rep_lazy_elem in Hin as (k' & Hk' & [= Hp _] & _). lia.
Qed.

(** A match of the reference pattern reads one serialized reference,
    whose fields are the three groups. *)
Lemma m_token_elem cur x :
  x ∈ m pipelineparam_regex cur ∅ →
  ∃ op name value,
    rest cur = serialize op name value ++ rest x.1
    ∧ x.2 = <[3 := value]> (<[2 := name]> (<[1 := op]> ∅))
    ∧ Forall (λ ch, is_param_char ch = true) op
    ∧ name ≠ [] ∧ Forall (λ ch, is_param_char ch = true) name
    ∧ Forall (λ ch, ch ≠ 10%N) value.
Proof.
  unfold pipelineparam_regex.
  intros (t1 & H1 & Hx)%m_cat_lit_elem.
  apply m_cat_grp_rep_elem in Hx as (op & t2 & H2 & Hop & _ & Hx).
  cbn [rest pos] in *.
  apply m_cat_lit_elem in Hx as (t3 & H3 & Hx). cbn [rest pos] in *.
  apply m_cat_grp_rep_elem in Hx as (name & t4 & H4 & Hname & Hlen & Hx).
  cbn [rest pos] in *.
  apply m_cat_lit_elem in Hx as (t5 & H5 & Hx). cbn [rest pos] in *.
  apply m_cat_grp_rep_elem in Hx as (value & t6 & H6 & Hval & _ & Hx).
  cbn [rest pos] in *.
  apply m_lit_elem in Hx as (H7 & Hc & _). cbn [rest] in H7.
  exists op, name, value. subst t1 t2 t3 t4 t5 t6.
  split; [unfold serialize; by rewrite H1, <-!app_assoc|].
  split; [done|]. split; [done|].
  split; [by destruct name; [cbn in Hlen; lia|]|]. split; [done|].
  eapply Forall_impl; [exact Hval|]. intros ch Hch ->. done.
Qed.
(** The same for every tuple of a search: somewhere in the text it started
    from stands the reference that the tuple denotes. *)
Lemma findall_from_sound (fuel : nat) cur (op name value : str) :
  (op, name, value) ∈ findall_from fuel pipelineparam_regex cur →
  contains (serialize op name value) (rest cur)
  ∧ Forall (λ ch, is_param_char ch = true) op
  ∧ name ≠ [] ∧ Forall (λ ch, is_param_char ch = true) name
  ∧ Forall (λ ch, ch ≠ 10%N) value.
Proof.
  revert cur. induction fuel as [|fuel IH]; intros cur; cbn [findall_from].
  { by intros ?%elem_of_nil. }
  assert ((op, name, value) ∈
            match rest cur with
            | [] => []
            | _ :: t =>
                findall_from fuel pipelineparam_regex (Cursor (S (pos cur)) t)
            end →
          contains (serialize op name value) (rest cur)
          ∧ Forall (λ ch, is_param_char ch = true) op
          ∧ name ≠ [] ∧ Forall (λ ch, is_param_char ch = true) name
          ∧ Forall (λ ch, ch ≠ 10%N) value) as Hskip.
  { destruct (rest cur) as [|ch t]; [by intros ?%elem_of_nil|].
    intros ((u & w & Huw) & Hrest)%IH. split; [|done].
    exists (ch :: u), w. cbn [rest] in Huw. by rewrite Huw. }
  destruct (head (m pipelineparam_regex cur ∅)) as [[cur' c]|] eqn:Hm; [|done].
  apply head_Some_elem_of, m_token_elem in Hm
    as (op' & name' & value' & Hr & Hc & Hrest). cbn [fst snd] in Hr, Hc.
  intros [Heq|Hin]%elem_of_cons.
  - subst c. unfold group in Heq.
    rewrite (lookup_insert_ne _ 3 1), (lookup_insert_ne _ 2 1) in Heq by done.
    rewrite (lookup_insert_ne _ 3 2) in Heq by done.
    rewrite !lookup_insert_eq in Heq. cbn in Heq.
    injection Heq as -> -> ->. split; [|done].
    exists [], (rest cur'). by rewrite Hr.
  - destruct (pos cur <? pos cur'); [|by apply Hskip].
    apply IH in Hin as ((u & w & Huw) & Hrest'). split; [|done].
    exists (serialize op' name' value' ++ u), w.
    by rewrite Hr, Huw, <-!app_assoc.
Qed.

(** X1. Soundness of the scanner: every tuple that [findall] returns on a
    text denotes a reference that is written in the text, with an
    operation and a name made of the characters of the name class, a name
    that is not empty, and a value without line feed. *)
Theorem findall_sound (s op name value : str) :
  (op, name, value) ∈ findall pipelineparam_regex s →
  contains (serialize op name value) s
  ∧ Forall (λ ch, is_param_char ch = true) op
  ∧ name ≠ [] ∧ Forall (λ ch, is_param_char ch = true) name
  ∧ Forall (λ ch, ch ≠ 10%N) value.
Proof. unfold findall. by intros ?%findall_from_sound. Qed.
End ScannerSound.

(** ** The search does not depend on where the text starts *)

(** The patterns without a caret. *)
Fixpoint bol_free (r : regex) : bool :=
  match r with
  | Bol => false
  | Cat a b | Alt a b => bol_free a && bol_free b
  | Grp _ a => bol_free a
  | _ => true
  end.

(** A match seen from [d] characters earlier. *)
Definition shift (d : nat) (x : cursor * caps) : cursor * caps :=
  (Cursor (pos x.1 + d) (rest x.1), x.2).

Section Shift.
Local Open Scope nat_scope.
Implicit Types (r : regex) (c : caps) (n d : nat) (s t : str).

Lemma rep_greedy_shift (p : N → bool) lo (hi : option nat) cnt n d t :
  rep_greedy p lo hi cnt (n + d) t
    = (λ cur, Cursor (pos cur + d) (rest cur)) <$> rep_greedy p lo hi cnt n t.
Proof.
  revert cnt n. induction t as [|ch t IH]; intros cnt n; cbn [rep_greedy].
  - by destruct (lo <=? cnt).
  - rewrite fmap_app. f_equal; [|by destruct (lo <=? cnt)].
    destruct (p ch && below hi cnt); [|done]. apply (IH (S cnt) (S n)).
Qed.

Lemma rep_lazy_shift (p : N → bool) lo (hi : option nat) cnt n d t :
  rep_lazy p lo hi cnt (n + d) t
    = (λ cur, Cursor (pos cur + d) (rest cur)) <$> rep_lazy p lo hi cnt n t.
Proof.
  revert cnt n. induction t as [|ch t IH]; intros cnt n; cbn [rep_lazy].
  - by destruct (lo <=? cnt).
  - rewrite fmap_app. f_equal; [by destruct (lo <=? cnt)|].
    destruct (p ch && below hi cnt); [|done]. apply (IH (S cnt) (S n)).
Qed.

Lemma bind_shift {A B} (sh : A → A) (g : B → B) (f f' : A → list B) (l : list A) :
  (∀ y, f (sh y) = g <$> f' y) → (sh <$> l) ≫= f = g <$> (l ≫= f').
Proof.
  intros Hf. induction l as [|y l IH]; [done|].
  rewrite fmap_cons, !bind_cons, fmap_app, Hf. by f_equal.
Qed.

(** Without a caret, a pattern matches in the same ways wherever the
    count of the characters read so far starts. *)
Lemma m_shift r n d s c :
  bol_free r = true →
  m r (Cursor (n + d) s) c = shift d <$> m r (Cursor n s) c.
Proof.
  revert n s c.
  induction r as [|p| | |a IHa b IHb|a IHa b IHb|g lo hi p|i a IHa];
    intros n s c Hr; cbn [m rest pos]; cbn [bol_free] in Hr.
  - done.
  - destruct s as [|ch t]; [done|]. by destruct (p ch).
  - done.
  - destruct s as [|ch [|??]]; [done| |done]. by destruct (ch =? 10)%N.
  - apply andb_true_iff in Hr as [Ha Hb]. rewrite IHa by done.
    apply bind_shift. intros [[n' s'] c']. apply IHb, Hb.
  - apply andb_true_iff in Hr as [Ha Hb].
    by rewrite fmap_app, IHa, IHb.
  - destruct g; [rewrite rep_greedy_shift|rewrite rep_lazy_shift];
      by rewrite <-!list_fmap_compose.
  - rewrite IHa by done. rewrite <-!list_fmap_compose.
    apply list_fmap_ext. intros _ [[n' s'] c'] _. unfold shift. cbn.
    do 3 f_equal. lia.
Qed.

Lemma findall_from_shift (fuel : nat) r n d s :
  bol_free r = true →
  findall_from fuel r (Cursor (n + d) s) = findall_from fuel r (Cursor n s).
Proof.
  intros Hr. revert n s. induction fuel as [|fuel IH]; intros n s; [done|].
  cbn [findall_from rest pos]. rewrite m_shift by done.
  destruct (m r (Cursor n s) ∅) as [|[[n' s'] c] l]; cbn [fmap list_fmap head].
  - destruct s as [|ch t]; [done|]. apply (IH (S n)).
  - unfold shift. cbn [fst snd pos rest]. f_equal.
    destruct (Nat.ltb_spec n n'), (Nat.ltb_spec (n + d) (n' + d)); try lia.
    + apply IH.
    + destruct s as [|ch t]; [done|]. apply (IH (S n)).
Qed.

(** A search resumed in the middle of a text finds what a search of the
    remaining text finds. *)
Lemma findall_from_rest (fuel : nat) r n s :
  bol_free r = true → length s < fuel →
  findall_from fuel r (Cursor n s) = findall r s.
Proof.
  intros Hr Hf. change n with (0 + n).
  rewrite (findall_from_shift fuel r 0 n s Hr). unfold findall.
  apply findall_from_fuel; cbn [rest]; lia.
Qed.

(** Where the pattern matches at the start of the text, the first tuple
    is that match and the others are those of the text after the match. *)
Lemma findall_match r s (cur' : cursor) c :
  bol_free r = true →
  head (m r (Cursor 0 s) ∅) = Some (cur', c) → 0 < pos cur' →
  findall r s
    = (group c 1, group c 2, group c 3) :: findall r (rest cur').
Proof.
  intros Hr Hm Hp. unfold findall at 1.
  rewrite (findall_from_match _ _ _ _ _ Hm) by done. f_equal.
  apply head_Some_elem_of, m_advance in Hm as (k & Hk & Hpos & Hrest).
  cbn [fst pos rest] in *. destruct cur' as [n' s']. cbn [pos rest] in *.
  apply findall_from_rest; [done|]. rewrite Hrest, length_drop. lia.
Qed.

(** Where it does not match at the start, the search moves on by one
    character. *)
Lemma findall_skip r (ch : N) (t : str) :
  bol_free r = true →
  head (m r (Cursor 0 (ch :: t)) ∅) = None →
  findall r (ch :: t) = findall r t.
Proof.
  intros Hr Hm. unfold findall at 1.
  change (findall_from (S (length (ch :: t))) r (Cursor 0 (ch :: t)))
    with (match head (m r (Cursor 0 (ch :: t)) ∅) with
          | Some (cur', c) =>
              (group c 1, group c 2, group c 3) ::
              (if 0 <? pos cur'
               then findall_from (length (ch :: t)) r cur'
               else findall_from (length (ch :: t)) r (Cursor 1 t))
          | None => findall_from (length (ch :: t)) r (Cursor 1 t)
          end).
  rewrite Hm. apply findall_from_rest; [done|cbn [length]; lia].
Qed.
End Shift.

(** ** The scanner on a text with several parts *)

Section ScannerCompose.
Context {U : UnicodeDB}.
Local Open Scope nat_scope.
Implicit Types (op name value pre post s : str).

Lemma pipelineparam_regex_bol_free : bol_free pipelineparam_regex = true.
Proof. reflexivity. Qed.

(** The pattern matches only where the text starts with its opening. *)
Lemma no_opening_no_match (n : nat) s :
  (∀ w, s ≠ py "{{pipelineparam:op=" ++ w) →
  head (m pipelineparam_regex (Cursor n s) ∅) = None.
Proof.
  intros Hs. destruct (head _) as [x|] eqn:Hm; [|done].
  apply head_Some_elem_of, m_token_elem in Hm as (op & name & value & Hr & _).
  cbn [rest] in Hr. destruct (Hs (op ++ py ";name=" ++ name ++ py ";value="
                                    ++ value ++ py "}}" ++ rest x.1)).
  rewrite Hr. unfold serialize. by rewrite <-!app_assoc.
Qed.

Lemma findall_nil s :
  ¬ contains (py "{{pipelineparam:op=") s →
  findall pipelineparam_regex s = [].
Proof.
  induction s as [|ch t IH]; intros Hs; [done|].
  rewrite findall_skip.
  - apply IH. intros (u & w & ->). apply Hs. by exists (ch :: u), w.
  - apply pipelineparam_regex_bol_free.
  - apply no_opening_no_match. intros w Hw. apply Hs. by exists [], w.
Qed.

(** X2. A text in which the opening of a reference is not written gives
    no tuple; in particular the empty text gives none. *)
Theorem findall_no_opening s :
  ¬ contains (py "{{pipelineparam:op=") s →
  findall pipelineparam_regex s = [].
Proof. apply findall_nil. Qed.

(** Text without an opening brace in front of a text is passed over. *)
Lemma findall_after_plain_text pre s :
  Forall (λ ch, ch ≠ 123%N) pre →
  findall pipelineparam_regex (pre ++ s) = findall pipelineparam_regex s.
Proof.
  induction 1 as [|ch pre Hch _ IH]; [done|]. cbn [app].
  rewrite findall_skip; [done|apply pipelineparam_regex_bol_free|].
  apply no_opening_no_match. by intros w [= ? _].
Qed.

(** A reference in front of a text is read, and the search goes on
    after it. *)
Lemma findall_token_app op name value post :
  Forall (λ ch, is_param_char ch = true) op →
  name ≠ [] → Forall (λ ch, is_param_char ch = true) name →
  Forall (λ ch, ch ≠ 10%N) value →
  ¬ contains (py "}}") value → last value ≠ Some 125%N →
  findall pipelineparam_regex (serialize op name value ++ post)
    = (op, name, value) :: findall pipelineparam_regex post.
Proof.
  intros Hop Hne Hname Hnl Hc Hl.
  assert (Forall (λ ch, is_dot ch = true) value) as Hdot.
  { eapply Forall_impl; [exact Hnl|]. intros ch Hch. unfold is_dot.
    by apply negb_true_iff, N.eqb_neq. }
  pose proof (match_token op name value post 0 Hop Hne Hname Hdot Hc Hl) as Hm.
  rewrite (findall_match _ _ _ _ pipelineparam_regex_bol_free Hm).
  - unfold group.
    rewrite (lookup_insert_ne _ 3 1), (lookup_insert_ne _ 2 1) by done.
    rewrite (lookup_insert_ne _ 3 2) by done. by rewrite !lookup_insert_eq.
  - cbn [pos]. unfold serialize. rewrite length_app.
    change (length (py "{{pipelineparam:op=")) with 19. lia.
Qed.

(** X3. The scanner works through a text part by part: in front of a
    reference, text without an opening brace is passed over; the reference
    is read with its three fields, under the conditions of the round trip;
    and the tuples that follow are those of the text after the reference. *)
Theorem findall_text_token_text pre op name value post :
  Forall (λ ch, ch ≠ 123%N) pre →
  Forall (λ ch, is_param_char ch = true) op →
  name ≠ [] → Forall (λ ch, is_param_char ch = true) name →
  Forall (λ ch, ch ≠ 10%N) value →
  ¬ contains (py "}}") value → last value ≠ Some 125%N →
  findall pipelineparam_regex (pre ++ serialize op name value ++ post)
    = (op, name, value) :: findall pipelineparam_regex post.
Proof.
  intros Hpre **. rewrite findall_after_plain_text by done.
  by apply findall_token_app.
Qed.

(** X4. What the format loses, for a value without line feed before its
    first [}}].  Let [value] hold no line feed and no [}}] and not end in
    [}].  The value made of [value], then [}}], then any text is cut at
    that [}}], its first: [value] is read as the value and the search goes
    on in the text after it, followed by the closing braces of the token.
    The value made of [value] and one more [}] is read as [value], without
    that brace. *)
Theorem findall_value_truncated op name value after :
  Forall (λ ch, is_param_char ch = true) op →
  name ≠ [] → Forall (λ ch, is_param_char ch = true) name →
  Forall (λ ch, ch ≠ 10%N) value →
  ¬ contains (py "}}") value → last value ≠ Some 125%N →
  findall pipelineparam_regex (serialize op name (value ++ py "}}" ++ after))
    = (op, name, value) :: findall pipelineparam_regex (after ++ py "}}")
  ∧ findall pipelineparam_regex (serialize op name (value ++ py "}"))
    = [(op, name, value)].
Proof.
  intros Hop Hne Hname Hnl Hc Hl. split.
  - replace (serialize op name (value ++ py "}}" ++ after))
      with (serialize op name value ++ after ++ py "}}")
      by (unfold serialize; by rewrite <-!app_assoc).
    by apply findall_token_app.
  - replace (serialize op name (value ++ py "}"))
      with (serialize op name value ++ py "}")
      by (unfold serialize; by rewrite <-!app_assoc).
    by rewrite findall_token_app.
Qed.
End ScannerCompose.

(** ** The resource strings *)

(** The unit suffixes of the memory pattern, in the order of the pattern. *)
Definition memory_suffixes : list str :=
  [py "E"; py "Ei"; py "P"; py "Pi"; py "T"; py "Ti"; py "G"; py "Gi";
   py "M"; py "Mi"; py "K"; py "Ki"].

(** The shape that the memory pattern describes: digits, then nothing or a
    suffix, then nothing or one final line feed (which the dollar allows). *)
Definition memory_shape (s : str) : Prop :=
  ∃ digits suffix nl,
    s = digits ++ suffix ++ nl
    ∧ digits ≠ [] ∧ Forall (λ ch, is_digit ch = true) digits
    ∧ (suffix = [] ∨ suffix ∈ memory_suffixes)
    ∧ (nl = [] ∨ nl = [10%N]).

(** The shape of a count of millicores: digits, [m], and nothing or one
    final line feed. *)
Definition millicore_shape (s : str) : Prop :=
  ∃ digits nl,
    s = digits ++ py "m" ++ nl
    ∧ digits ≠ [] ∧ Forall (λ ch, is_digit ch = true) digits
    ∧ (nl = [] ∨ nl = [10%N]).

Section ResourceStrings.
Local Open Scope nat_scope.
Implicit Types (b : regex) (c : caps) (cur : cursor) (x : cursor * caps).

Lemma m_cat_rep_elem b (g : bool) lo (p : N → bool) cur c x :
  x ∈ m (Cat (Rep g lo None p) b) cur c →
  ∃ w t, rest cur = w ++ t ∧ Forall (λ ch, p ch = true) w ∧ lo ≤ length w
       ∧ x ∈ m b (Cursor (pos cur + length w) t) c.
Proof.
  cbn [m]. intros (y & Hx & Hy)%list_elem_of_bind.
  apply list_elem_of_fmap in Hy as (cur' & -> & Hin). cbn [fst snd] in Hx.
  assert (∃ k, k ≤ length (rest cur)
             ∧ cur' = Cursor (pos cur + k) (drop k (rest cur)) ∧ lo ≤ k
             ∧ Forall (λ ch, p ch = true) (take k (rest cur)))
    as (k & Hk & -> & Hlo & Hall).
  { destruct g.
    - pose proof Hin as (k & Hk & -> & _)%rep_greedy_elem.
      apply rep_greedy_run in Hin as (k' & [= Hkk _] & Hlo & Hall).
      assert (k' = k) as -> by lia. by exists k.
    - pose proof Hin as (k & Hk & -> & _)%rep_lazy_elem.
      apply rep_lazy_run in Hin as (k' & [= Hkk _] & Hlo & Hall).
      assert (k' = k) as -> by lia. by exists k. }
  exists (take k (rest cur)), (drop k (rest cur)).
  rewrite take_drop, length_take, Nat.min_l by done. done.
Qed.

Lemma m_cat_bol (r : regex) (s : str) c :
  m (Cat Bol r) (Cursor 0 s) c = m r (Cursor 0 s) c.
Proof. cbn [m pos Nat.eqb]. by rewrite bind_singleton. Qed.

(** A pattern that starts with a caret and digits, on a text. *)
Lemma digits_then_elem b (s : str) x :
  x ∈ m (Cat Bol (Cat (Rep true 1 None is_digit) b)) (Cursor 0 s) ∅ →
  ∃ digits t, s = digits ++ t ∧ digits ≠ []
    ∧ Forall (λ ch, is_digit ch = true) digits
    ∧ x ∈ m b (Cursor (length digits) t) ∅.
Proof.
  rewrite m_cat_bol.
  intros (w & t & Hs & Hw & Hlen & Hx)%m_cat_rep_elem. cbn [rest pos] in *.
  exists w, t. split; [done|]. split; [by destruct w; [cbn in Hlen; lia|]|].
  done.
Qed.

Lemma digits_then_head b (digits t : str) :
  digits ≠ [] → Forall (λ ch, is_digit ch = true) digits →
  match t with ch :: _ => is_digit ch = false | [] => True end →
  is_Some (head (m b (Cursor (length digits) t) ∅)) →
  is_Some (match_ (Cat Bol (Cat (Rep true 1 None is_digit) b)) (digits ++ t)).
Proof.
  intros Hne Hd Ht Hb. unfold match_. rewrite m_cat_bol.
  change (m (Cat (Rep true 1 None is_digit) b) (Cursor 0 (digits ++ t)) ∅)
    with (((λ cur', (cur', (∅ : caps))) <$>
             rep_greedy is_digit 1 None 0 0 (digits ++ t))
            ≫= (λ x, m b x.1 x.2)).
  rewrite list_fmap_bind.
  match goal with
  | |- context [rep_greedy _ _ _ _ _ _ ≫= ?f] =>
      destruct (rep_greedy_bind f is_digit 1 digits t 0 0 Hd Ht) as [l Hl]
  end.
  { destruct digits; [done|cbn; lia]. }
  rewrite Hl. cbn [compose fst snd Nat.add].
  destruct Hb as [x Hx]. apply head_Some in Hx as [l' ->]. by eexists.
Qed.

(** The memory pattern accepts exactly the texts of the memory shape. *)
Lemma memory_regex_spec (s : str) :
  is_Some (match_ memory_regex s) ↔ memory_shape s.
Proof.
  unfold memory_regex, memory_shape. split.
  - intros [x Hx]. apply head_Some_elem_of in Hx.
    apply digits_then_elem in Hx as (digits & t & -> & Hne & Hd & Hx).
    cbn [m] in Hx. apply list_elem_of_bind in Hx as (y & Hx & Hy).
    assert (∃ suffix, (suffix = [] ∨ suffix ∈ memory_suffixes)
                      ∧ t = suffix ++ rest y.1) as (suffix & Hsuf & ->).
    { apply elem_of_app in Hy as [Hy|Hy].
      - apply list_elem_of_fmap in Hy as (z & -> & Hz). cbn [fst].
        repeat (apply elem_of_app in Hz as [Hz|Hz]);
          apply m_lit_elem in Hz as (Hz & _); cbn [rest] in Hz;
          eexists; (split; [right|exact Hz]); unfold memory_suffixes;
          repeat first [by left | right].
      - apply list_elem_of_singleton in Hy as ->. by exists []; split; [left|]. }
    exists digits, suffix, (rest y.1). repeat (split; [done|]).
    destruct (rest y.1) as [|ch [|??]]; [by left| |by apply elem_of_nil in Hx].
    destruct (N.eqb_spec ch 10) as [Heq|]; [|by apply elem_of_nil in Hx].
    rewrite Heq. by right.
  - intros (digits & suffix & nl & -> & Hne & Hd & Hsuf & Hnl).
    apply digits_then_head; [done..| |].
    + destruct Hsuf as [->|Hsuf], Hnl as [->| ->];
        [done|done| |];
        unfold memory_suffixes in Hsuf;
        repeat (apply elem_of_cons in Hsuf as [->|Hsuf]);
        done || by apply elem_of_nil in Hsuf.
    + destruct Hsuf as [->|Hsuf], Hnl as [->| ->];
        [by eexists|by eexists| |];
        unfold memory_suffixes in Hsuf;
        repeat (apply elem_of_cons in Hsuf as [->|Hsuf]);
        (by eexists) || by apply elem_of_nil in Hsuf.
Qed.

(** The millicore pattern accepts exactly the texts of the millicore
    shape. *)
Lemma cpu_milli_regex_spec (s : str) :
  is_Some (match_ cpu_milli_regex s) ↔ millicore_shape s.
Proof.
  unfold cpu_milli_regex, millicore_shape. split.
  - intros [x Hx]. apply head_Some_elem_of in Hx.
    apply digits_then_elem in Hx as (digits & t & -> & Hne & Hd & Hx).
    apply m_cat_lit_elem in Hx as (nl & Ht & Hx). cbn [rest] in Ht.
    subst t. cbn [m rest] in Hx.
    exists digits, nl. repeat (split; [done|]).
    destruct nl as [|ch [|??]]; [by left| |by apply elem_of_nil in Hx].
    destruct (N.eqb_spec ch 10) as [Heq|]; [|by apply elem_of_nil in Hx].
    rewrite Heq. by right.
  - intros (digits & nl & -> & Hne & Hd & Hnl).
    apply digits_then_head; [done..| |].
    + done.
    + destruct Hnl as [->| ->]; by eexists.
Qed.
End ResourceStrings.

(** ** The setters, read on the text they are given *)

(** [a.after(b1).after(b2)...], for the operations of a list in turn. *)
Fixpoint after_all {K : K8sModels} (ops : list ContainerOp) : M ContainerOp () :=
  match ops with
  | [] => mret ()
  | op :: ops' => after op;; after_all ops'
  end.

(** The attributes that tie an operation into the graph and that the
    constructor derives from its arguments. *)
Definition wiring {K : K8sModels} (o : ContainerOp) :=
  (human_name o, name o, image o, command o, arguments o, is_exit_handler o,
   argument_inputs o, file_outputs o, dependent_op_names o, inputs o,
   outputs o, output o).

Section Setters.
Context {U : UnicodeDB} {K : K8sModels}.
Implicit Types (self : ContainerOp) (s a b gpu vendor : str).

(** A call that returns hands its state to the next call of the chain. *)
Lemma bind_step {S A B} (x : M S A) (f : A → M S B) (st st' : S) (v : A) :
  x st = (inr v, st') → (x ≫= f) st = f v st'.
Proof. unfold mbind, M_bind. by intros ->. Qed.

Lemma memory_shape_None s : ¬ memory_shape s → match_ memory_regex s = None.
Proof.
  intros Hs. destruct (match_ memory_regex s) eqn:E; [|done].
  destruct Hs. apply memory_regex_spec. by rewrite E.
Qed.

Lemma set_memory_request_ok s self :
  memory_shape s →
  set_memory_request s self
    = (inr (), with_resource_requests
                 (<[py "memory" := s]> (resource_requests self)) self).
Proof.
  intros [x Hx]%memory_regex_spec.
  unfold set_memory_request, _validate_memory_string, mbind, M_bind.
  by rewrite bool_decide_false by (by rewrite Hx).
Qed.

Lemma set_memory_limit_ok s self :
  memory_shape s →
  set_memory_limit s self
    = (inr (), with_resource_limits
                 (<[py "memory" := s]> (resource_limits self)) self).
Proof.
  intros [x Hx]%memory_regex_spec.
  unfold set_memory_limit, _validate_memory_string, mbind, M_bind.
  by rewrite bool_decide_false by (by rewrite Hx).
Qed.

(** X5. A memory setter given a text of the memory shape returns normally;
    afterwards the key [memory] of the requests, or of the limits, reads
    back as the text given, final line feed included, the other keys read
    as before, and the other of the two maps is untouched.  Given any other
    text it raises the error of the memory validation and changes
    nothing. *)
Theorem memory_setters_spec s self :
  (memory_shape s →
     (set_memory_request s self).1 = inr ()
     ∧ resource_requests (set_memory_request s self).2 !! py "memory" = Some s
     ∧ (∀ k, k ≠ py "memory" →
          resource_requests (set_memory_request s self).2 !! k
            = resource_requests self !! k)
     ∧ resource_limits (set_memory_request s self).2 = resource_limits self
     ∧ (set_memory_limit s self).1 = inr ()
     ∧ resource_limits (set_memory_limit s self).2 !! py "memory" = Some s
     ∧ (∀ k, k ≠ py "memory" →
          resource_limits (set_memory_limit s self).2 !! k
            = resource_limits self !! k)
     ∧ resource_requests (set_memory_limit s self).2 = resource_requests self)
  ∧ (¬ memory_shape s →
     set_memory_request s self = (inl (ValueError msg_bad_memory), self)
     ∧ set_memory_limit s self = (inl (ValueError msg_bad_memory), self)).
Proof.
  split.
  - intros Hs. rewrite set_memory_request_ok, set_memory_limit_ok by done.
    cbn [fst snd resource_requests resource_limits with_resource_requests
         with_resource_limits].
    rewrite !lookup_insert_eq.
    by repeat split; try (intros k Hk; by rewrite lookup_insert_ne).
  - intros Hn%memory_shape_None.
    split; apply bind_raise, validate_memory_raises, Hn.
Qed.

(** X6. A cpu setter given a text of the millicore shape or a text that
    [float] reads returns normally; afterwards the key [cpu] of the
    requests, or of the limits, reads back as the text given, the other
    keys read as before, and the other of the two maps is untouched.  Given
    any other text it raises the error of the cpu validation and changes
    nothing. *)
Theorem cpu_setters_spec s self :
  (millicore_shape s ∨ py_float_ok s = true →
     (set_cpu_request s self).1 = inr ()
     ∧ resource_requests (set_cpu_request s self).2 !! py "cpu" = Some s
     ∧ (∀ k, k ≠ py "cpu" →
          resource_requests (set_cpu_request s self).2 !! k
            = resource_requests self !! k)
     ∧ resource_limits (set_cpu_request s self).2 = resource_limits self
     ∧ (set_cpu_limit s self).1 = inr ()
     ∧ resource_limits (set_cpu_limit s self).2 !! py "cpu" = Some s
     ∧ (∀ k, k ≠ py "cpu" →
          resource_limits (set_cpu_limit s self).2 !! k
            = resource_limits self !! k)
     ∧ resource_requests (set_cpu_limit s self).2 = resource_requests self)
  ∧ (¬ millicore_shape s → py_float_ok s = false →
     set_cpu_request s self = (inl (ValueError msg_bad_cpu), self)
     ∧ set_cpu_limit s self = (inl (ValueError msg_bad_cpu), self)).
Proof.
  split.
  - intros Hs.
    assert (match_ cpu_milli_regex s ≠ None ∨ py_float_ok s = true) as Hv.
    { destruct Hs as [[x Hx]%cpu_milli_regex_spec|?]; [left|by right].
      by rewrite Hx. }
    unfold set_cpu_request, set_cpu_limit.
    rewrite !(bind_ret _ _ _ ()) by (by apply validate_cpu_returns).
    cbn [add_resource_request add_resource_limit modify fst snd
         resource_requests resource_limits with_resource_requests
         with_resource_limits].
    rewrite !lookup_insert_eq.
    by repeat split; try (intros k Hk; by rewrite lookup_insert_ne).
  - intros Hs Hf.
    assert (match_ cpu_milli_regex s = None) as Hn.
    { destruct (match_ cpu_milli_regex s) eqn:E; [|done].
      destruct Hs. apply cpu_milli_regex_spec. by rewrite E. }
    split; by apply bind_raise, validate_cpu_raises.
Qed.

(** X7. The gpu setter reads its count with [int] and checks it before
    the vendor.  A text that [int] does not read raises the not-an-integer
    error and a count that is not positive raises its own error, whatever
    the vendor; a positive count with a vendor other than nvidia and amd
    raises the vendor error; in each case nothing is changed.  Otherwise
    the call returns normally; afterwards the key of the vendor reads back
    in the limits as the text of the count exactly as it was given, the
    other keys of the limits read as before, and the requests are
    untouched. *)
Theorem gpu_limit_spec gpu vendor self :
  (py_int gpu = None →
     set_gpu_limit gpu vendor self
       = (inl (ValueError (py "Invalid gpu. Should be integer.")), self))
  ∧ (∀ n, py_int gpu = Some n → (n ≤ 0)%Z →
     set_gpu_limit gpu vendor self
       = (inl (ValueError (py "gpu must be positive integer.")), self))
  ∧ (∀ n, py_int gpu = Some n → (0 < n)%Z →
     vendor ≠ py "nvidia" → vendor ≠ py "amd" →
     set_gpu_limit gpu vendor self
       = (inl (ValueError (py "vendor can only be nvidia or amd.")), self))
  ∧ (∀ n, py_int gpu = Some n → (0 < n)%Z →
     vendor = py "nvidia" ∨ vendor = py "amd" →
     (set_gpu_limit gpu vendor self).1 = inr ()
     ∧ resource_limits (set_gpu_limit gpu vendor self).2
         !! (vendor ++ py ".com/gpu") = Some gpu
     ∧ (∀ k, k ≠ vendor ++ py ".com/gpu" →
          resource_limits (set_gpu_limit gpu vendor self).2 !! k
            = resource_limits self !! k)
     ∧ resource_requests (set_gpu_limit gpu vendor self).2
         = resource_requests self).
Proof.
  unfold set_gpu_limit, _validate_positive_number, mbind, M_bind.
  split; [by intros ->|]. split; [|split].
  - intros n -> Hn. by apply Z.leb_le in Hn as ->.
  - intros n -> Hn H1 H2. apply Z.leb_gt in Hn as ->. cbn.
    by rewrite !bool_decide_true.
  - intros n -> Hn Hv. apply Z.leb_gt in Hn as ->.
    assert (bool_decide (vendor ≠ py "nvidia") && bool_decide (vendor ≠ py "amd")
            = false) as ->.
    { destruct Hv as [-> | ->]; reflexivity. }
    cbn [mret M_ret add_resource_limit modify fst snd resource_limits
         resource_requests with_resource_limits].
    rewrite lookup_insert_eq.
    by repeat split; try (intros k Hk; by rewrite lookup_insert_ne).
Qed.

Lemma after_all_state (ops : list ContainerOp) self :
  after_all ops self
    = (inr (), with_dependent_op_names
                 (dependent_op_names self ++ (name <$> ops)) self).
Proof.
  revert self. induction ops as [|op ops IH]; intros self.
  - cbn. rewrite app_nil_r. by destruct self.
  - cbn [after_all]. unfold mbind, M_bind, after, modify. rewrite IH.
    cbn. by rewrite <-app_assoc.
Qed.

(** X8. A chain of [after] calls returns normally; afterwards the
    dependencies read as the former ones followed by the names of the
    given operations in the order of the calls, a name given twice being
    kept twice, and every other attribute reads as before. *)
Theorem after_all_appends (ops : list ContainerOp) self :
  (after_all ops self).1 = inr ()
  ∧ dependent_op_names (after_all ops self).2
      = dependent_op_names self ++ (name <$> ops)
  ∧ length (dependent_op_names (after_all ops self).2)
      = (length (dependent_op_names self) + length ops)%nat
  ∧ inputs (after_all ops self).2 = inputs self
  ∧ human_name (after_all ops self).2 = human_name self
  ∧ name (after_all ops self).2 = name self
  ∧ image (after_all ops self).2 = image self
  ∧ command (after_all ops self).2 = command self
  ∧ arguments (after_all ops self).2 = arguments self
  ∧ is_exit_handler (after_all ops self).2 = is_exit_handler self
  ∧ resource_limits (after_all ops self).2 = resource_limits self
  ∧ resource_requests (after_all ops self).2 = resource_requests self
  ∧ node_selector (after_all ops self).2 = node_selector self
  ∧ volumes (after_all ops self).2 = volumes self
  ∧ volume_mounts (after_all ops self).2 = volume_mounts self
  ∧ env_variables (after_all ops self).2 = env_variables self
  ∧ pod_annotations (after_all ops self).2 = pod_annotations self
  ∧ pod_labels (after_all ops self).2 = pod_labels self
  ∧ num_retries (after_all ops self).2 = num_retries self
  ∧ argument_inputs (after_all ops self).2 = argument_inputs self
  ∧ file_outputs (after_all ops self).2 = file_outputs self
  ∧ outputs (after_all ops self).2 = outputs self
  ∧ output (after_all ops self).2 = output self.
Proof.
  rewrite after_all_state. cbn. repeat split.
  by rewrite length_app, length_fmap.
Qed.

(** X9. Two writes of the memory limit in a chain.  When both texts are
    valid the chain returns normally, the key [memory] of the limits reads
    back as the later text, and the operation is left as if the later text
    had been set alone.  When the second text is not valid the chain raises
    the error of the memory validation and the key [memory] reads back as
    the first text: nothing undoes the call that succeeded. *)
Theorem memory_limit_twice a b self :
  memory_shape a →
  (memory_shape b →
     ((set_memory_limit a;; set_memory_limit b) self).1 = inr ()
     ∧ resource_limits ((set_memory_limit a;; set_memory_limit b) self).2
         !! py "memory" = Some b
     ∧ (set_memory_limit a;; set_memory_limit b) self = set_memory_limit b self)
  ∧ (¬ memory_shape b →
     ((set_memory_limit a;; set_memory_limit b) self).1
       = inl (ValueError msg_bad_memory)
     ∧ resource_limits ((set_memory_limit a;; set_memory_limit b) self).2
         !! py "memory" = Some a
     ∧ (∀ k, k ≠ py "memory" →
          resource_limits ((set_memory_limit a;; set_memory_limit b) self).2 !! k
            = resource_limits self !! k)).
Proof.
  intros Ha.
  rewrite (bind_step _ _ _ _ _ (set_memory_limit_ok a self Ha)).
  split; intros Hb.
  - rewrite !set_memory_limit_ok by done.
    cbn [fst snd resource_limits with_resource_limits].
    rewrite lookup_insert_eq. split; [done|]. split; [done|].
    cbn. by rewrite insert_insert_eq.
  - apply memory_shape_None in Hb. unfold set_memory_limit at 1 2 3.
    rewrite (bind_raise _ _ _ _ (validate_memory_raises _ _ Hb)).
    cbn [fst snd resource_limits with_resource_limits].
    rewrite lookup_insert_eq. split; [done|]. split; [done|].
    intros k Hk. by rewrite lookup_insert_ne.
Qed.
End Setters.

Section SettersTogether.
Context {U : UnicodeDB} {K : K8sModels}.
Implicit Types (self : ContainerOp) (s a b gpu vendor k v : str).

Lemma set_cpu_limit_ok s self :
  millicore_shape s ∨ py_float_ok s = true →
  set_cpu_limit s self
    = (inr (), with_resource_limits
                 (<[py "cpu" := s]> (resource_limits self)) self).
Proof.
  intros Hs.
  assert (match_ cpu_milli_regex s ≠ None ∨ py_float_ok s = true) as Hv.
  { destruct Hs as [[x Hx]%cpu_milli_regex_spec|?]; [left|by right].
    by rewrite Hx. }
  unfold set_cpu_limit.
  by rewrite (bind_ret _ _ _ ()) by (by apply validate_cpu_returns).
Qed.

Lemma set_gpu_limit_ok gpu vendor (n : Z) self :
  py_int gpu = Some n → (0 < n)%Z → vendor = py "nvidia" ∨ vendor = py "amd" →
  set_gpu_limit gpu vendor self
    = (inr (), with_resource_limits
                 (<[vendor ++ py ".com/gpu" := gpu]> (resource_limits self))
                 self).
Proof.
  unfold set_gpu_limit, _validate_positive_number, mbind, M_bind.
  intros -> Hn Hv. apply Z.leb_gt in Hn as ->. cbn.
  destruct Hv as [-> | ->]; reflexivity.
Qed.

Lemma limit_keys_distinct vendor :
  vendor = py "nvidia" ∨ vendor = py "amd" →
  py "memory" ≠ py "cpu"
  ∧ vendor ++ py ".com/gpu" ≠ py "memory"
  ∧ vendor ++ py ".com/gpu" ≠ py "cpu".
Proof.
  intros [-> | ->]; repeat split; intros H; vm_compute in H; discriminate H.
Qed.

(** X10. The limits of different resources do not overwrite one another:
    after a chain that sets a memory limit, a cpu limit and a gpu limit with
    valid arguments, each of the three keys holds the text it was given,
    every other key of the limits is as before, and the requests and the
    wiring of the operation are untouched. *)
Theorem limits_coexist a b gpu vendor (n : Z) self :
  memory_shape a → millicore_shape b ∨ py_float_ok b = true →
  py_int gpu = Some n → (0 < n)%Z →
  vendor = py "nvidia" ∨ vendor = py "amd" →
  ∃ self',
    (set_memory_limit a;; set_cpu_limit b;; set_gpu_limit gpu vendor) self
      = (inr (), self')
    ∧ resource_limits self' !! py "memory" = Some a
    ∧ resource_limits self' !! py "cpu" = Some b
    ∧ resource_limits self' !! (vendor ++ py ".com/gpu") = Some gpu
    ∧ (∀ k, k ≠ py "memory" → k ≠ py "cpu" → k ≠ vendor ++ py ".com/gpu" →
         resource_limits self' !! k = resource_limits self !! k)
    ∧ resource_requests self' = resource_requests self
    ∧ wiring self' = wiring self.
Proof.
  intros Ha Hb Hg Hn Hv.
  destruct (limit_keys_distinct vendor Hv) as (H1 & H2 & H3).
  eexists. split.
  { rewrite (bind_step _ _ _ _ _ (set_memory_limit_ok a self Ha)).
    rewrite (bind_step _ _ _ _ _ (set_cpu_limit_ok b _ Hb)).
    by apply (set_gpu_limit_ok gpu vendor n). }
  cbn [resource_limits resource_requests with_resource_limits].
  split; [by rewrite lookup_insert_ne, lookup_insert_ne, lookup_insert_eq|].
  split; [by rewrite lookup_insert_ne, lookup_insert_eq|].
  split; [by rewrite lookup_insert_eq|].
  split; [by intros k ???; rewrite !lookup_insert_ne|]. done.
Qed.

(** X11. No setter of an attribute touches the wiring of the operation,
    whether it returns or raises, and the setters without validation
    return normally on every argument. *)
Theorem setters_keep_wiring s vendor k v (vol : V1Volume)
    (mount : V1VolumeMount) (env : V1EnvVar) (retries : Z) self :
  (∀ f, f ∈ [set_memory_request s; set_memory_limit s; set_cpu_request s;
             set_cpu_limit s; set_gpu_limit s vendor] →
        wiring (f self).2 = wiring self)
  ∧ (∀ f, f ∈ [add_resource_limit k v; add_resource_request k v;
               add_volume vol; add_volume_mount mount; add_env_variable env;
               add_node_selector_constraint k v; add_pod_annotation k v;
               add_pod_label k v; set_retry retries] →
        (f self).1 = inr () ∧ wiring (f self).2 = wiring self).
Proof.
  split; intros f Hf.
  - repeat (apply elem_of_cons in Hf as [->|Hf]);
      [| | | | |by apply elem_of_nil in Hf].
    + unfold set_memory_request, _validate_memory_string, mbind, M_bind.
      by case_bool_decide.
    + unfold set_memory_limit, _validate_memory_string, mbind, M_bind.
      by case_bool_decide.
    + unfold set_cpu_request, _validate_cpu_string, mbind, M_bind.
      case_bool_decide; [done|]. by destruct (py_float_ok s).
    + unfold set_cpu_limit, _validate_cpu_string, mbind, M_bind.
      case_bool_decide; [done|]. by destruct (py_float_ok s).
    + unfold set_gpu_limit, _validate_positive_number, mbind, M_bind.
      destruct (py_int s) as [n|]; [|done].
      destruct (n <=? 0)%Z; [done|]. cbn.
      by destruct (bool_decide _ && bool_decide _).
  - repeat (apply elem_of_cons in Hf as [->|Hf]);
      [done..|by apply elem_of_nil in Hf].
Qed.
End SettersTogether.

(** ** The constructor, read on its arguments *)

(** The names that the name pattern accepts. *)
Definition name_shape {U : UnicodeDB} (nm : str) : Prop :=
  ∃ ch t, nm = ch :: t ∧ is_letter ch = true
          ∧ Forall (λ x, is_name_char x = true) t.

Section ConstructorOutcome.
Context {U : UnicodeDB} {O : SetOrder} {R : Registry} {K : K8sModels}.
Implicit Types (nm img : str) (cmd args : option (list str))
  (fo : option (gmap str str)) (ieh : bool) (p : Pipeline).

(** The set of no tuple is listed as the empty list. *)
Lemma list_set_nil : list_set [] = [].
Proof.
  destruct (list_set []) as [|x l] eqn:E; [done|].
  assert (x ∈ list_set []) as Hx by (rewrite E; by left).
  apply (proj1 (list_set_elem _ _)) in Hx. by apply elem_of_nil in Hx.
Qed.

(** The tuples of the constructor are those of its texts. *)
Lemma elem_of_matches cmd args (t : str * str * str) :
  t ∈ matches cmd args
  ↔ ∃ arg, arg ∈ default [] cmd ++ default [] args
           ∧ t ∈ findall pipelineparam_regex arg.
Proof.
  unfold matches. rewrite list_elem_of_bind.
  split; intros (arg & ? & ?); by exists arg.
Qed.

(** X12. The constructor inside a pipeline, for a command and arguments
    that are each absent or a list of strings.  If the display name is a
    letter followed by letters, digits, white space, underscores and
    hyphens, the constructor returns: the operation is registered once,
    takes the name that the pipeline returns, keeps the display name and
    the other arguments as given, and starts with empty limits, requests,
    selectors, volumes, mounts, variables, annotations and labels, no
    retry and no dependency.  If the display name is anything else, the
    empty name included, the constructor raises the invalid-name error and
    leaves the pipeline as it was. *)
Theorem init_outcomes nm img cmd args fo ieh p :
  (name_shape nm →
     ∃ node,
       __init__ nm img cmd args fo ieh (Some p)
         = (inr node, Some (add_op p nm ieh).2)
       ∧ name node = (add_op p nm ieh).1
       ∧ human_name node = nm ∧ image node = img
       ∧ command node = cmd ∧ arguments node = args
       ∧ file_outputs node = fo ∧ is_exit_handler node = ieh
       ∧ resource_limits node = ∅ ∧ resource_requests node = ∅
       ∧ node_selector node = ∅ ∧ volumes node = []
       ∧ volume_mounts node = [] ∧ env_variables node = []
       ∧ pod_annotations node = ∅ ∧ pod_labels node = ∅
       ∧ num_retries node = 0%Z ∧ dependent_op_names node = []
       ∧ argument_inputs node = inputs node)
  ∧ (¬ name_shape nm →
     __init__ nm img cmd args fo ieh (Some p)
       = (inl (InvalidNameError nm), Some p)).
Proof.
  unfold __init__, mbind, M_bind, get_default_pipeline, get.
  rewrite bool_decide_true by eauto. cbn [negb]. split.
  - intros Hn%valid_name_spec. rewrite bool_decide_true by done.
    cbn [negb]. unfold default_pipeline_add_op, mret, M_ret.
    eexists. split; [reflexivity|]. by repeat split.
  - intros Hn. rewrite bool_decide_false; [done|].
    by rewrite valid_name_spec.
Qed.

(** X13. Every input of a constructed operation comes from the text: one
    of the strings of the command or of the arguments holds the reference
    that the input denotes.  An input always has a value, possibly empty
    but never absent, and a name that is not empty. *)
Theorem init_inputs_sound nm img cmd args fo ieh
    (st st' : option Pipeline) (node : ContainerOp) (q : PipelineParam) :
  __init__ nm img cmd args fo ieh st = (inr node, st') →
  q ∈ inputs node →
  ∃ arg value,
    arg ∈ default [] cmd ++ default [] args
    ∧ param_value q = Some value
    ∧ contains (serialize (param_op_name q) (param_name q) value) arg
    ∧ param_name q ≠ []
    ∧ Forall (λ ch, ch ≠ 10%N) value.
Proof.
  intros (p & _ & _ & _ & _ & -> & _)%init_inv.
  intros ([[op name] value] & -> & Ht)%list_elem_of_fmap.
  apply list_set_elem, elem_of_matches in Ht as (arg & Harg & Ht).
  apply findall_from_sound in Ht as (Hc & _ & Hne & _ & Hv).
  exists arg, value. by repeat split.
Qed.

(** X14. A constructor whose command and arguments are absent, empty, or
    made of strings in which the opening of a reference is not written,
    builds an operation without inputs. *)
Theorem init_no_inputs nm img cmd args fo ieh
    (st st' : option Pipeline) (node : ContainerOp) :
  __init__ nm img cmd args fo ieh st = (inr node, st') →
  (∀ arg, arg ∈ default [] cmd ++ default [] args →
          ¬ contains (py "{{pipelineparam:op=") arg) →
  inputs node = [].
Proof.
  intros (p & _ & _ & _ & _ & -> & _)%init_inv Hargs.
  assert (matches cmd args = []) as ->; [|by rewrite list_set_nil].
  destruct (matches cmd args) as [|t l] eqn:E; [done|].
  assert (t ∈ matches cmd args) as Ht by (rewrite E; by left).
  apply elem_of_matches in Ht as (arg & Harg & Ht).
  rewrite (findall_nil arg (Hargs arg Harg)) in Ht. by apply elem_of_nil in Ht.
Qed.

(** X15. A reference written in a string of the command or of the
    arguments, after text without an opening brace and with fields that
    obey the conditions of the round trip, is an input of the constructed
    operation, whatever follows it in the string and whatever the other
    strings hold. *)
Theorem init_inputs_complete nm img cmd args fo ieh
    (st st' : option Pipeline) (node : ContainerOp) (pre op name value post : str) :
  __init__ nm img cmd args fo ieh st = (inr node, st') →
  pre ++ serialize op name value ++ post ∈ default [] cmd ++ default [] args →
  Forall (λ ch, ch ≠ 123%N) pre →
  Forall (λ ch, is_param_char ch = true) op →
  name ≠ [] → Forall (λ ch, is_param_char ch = true) name →
  Forall (λ ch, ch ≠ 10%N) value →
  ¬ contains (py "}}") value → last value ≠ Some 125%N →
  mkPipelineParam name op (Some value) ∈ inputs node.
Proof.
  intros (p & _ & _ & _ & _ & -> & _)%init_inv Harg Hpre Hop Hne Hname Hnl Hc Hl.
  apply list_elem_of_fmap. exists (op, name, value). split; [done|].
  apply list_set_elem, elem_of_matches. eexists. split; [exact Harg|].
  rewrite findall_after_plain_text, findall_token_app by done. by left.
Qed.
End ConstructorOutcome.

(** ** Runs of the further properties *)

Lemma not_contains_short (needle hay : str) :
  (length hay < length needle)%nat → ¬ contains needle hay.
Proof.
  intros Hlen (u & w & ->). rewrite !length_app in Hlen. lia.
Qed.

Lemma findall_sound_witness :
  (py "a", py "x", py "1") ∈ findall (@pipelineparam_regex ascii_db) echo_twice
  ∧ contains (serialize (py "a") (py "x") (py "1")) echo_twice.
Proof.
  assert ((py "a", py "x", py "1")
            ∈ findall (@pipelineparam_regex ascii_db) echo_twice) as H.
  { assert (findall (@pipelineparam_regex ascii_db) echo_twice
            = [(py "a", py "x", py "1"); (py "a", py "x", py "1")]) as ->
      by (vm_compute; reflexivity).
    by left. }
  split; [exact H|]. exact (proj1 (@findall_sound ascii_db _ _ _ _ H)).
Defined.

Lemma findall_no_opening_witness :
  findall (@pipelineparam_regex ascii_db) (py "ls -l") = [].
Proof.
  apply (@findall_no_opening ascii_db), not_contains_short.
  vm_compute. lia.
Defined.

Lemma findall_text_token_text_witness :
  findall (@pipelineparam_regex ascii_db)
    (py "echo " ++ serialize (py "a") (py "x") (py "1") ++ py " done")
  = (py "a", py "x", py "1")
      :: findall (@pipelineparam_regex ascii_db) (py " done").
Proof.
  apply (@findall_text_token_text ascii_db).
  - repeat constructor; discriminate.
  - by repeat constructor.
  - discriminate.
  - by repeat constructor.
  - by repeat constructor.
  - apply not_contains_short. vm_compute. lia.
  - discriminate.
Defined.

Lemma findall_value_truncated_witness :
  findall (@pipelineparam_regex ascii_db)
    (serialize (py "a") (py "x") (py "1" ++ py "}}" ++ py "2"))
  = (py "a", py "x", py "1")
      :: findall (@pipelineparam_regex ascii_db) (py "2" ++ py "}}").
Proof.
  refine (proj1 (@findall_value_truncated ascii_db
                   (py "a") (py "x") (py "1") (py "2") _ _ _ _ _ _)).
  - by repeat constructor.
  - discriminate.
  - by repeat constructor.
  - by repeat constructor.
  - apply not_contains_short. vm_compute. lia.
  - discriminate.
Defined.

Lemma memory_shape_10Gi : memory_shape (py "10Gi").
Proof.
  exists (py "10"), (py "Gi"), []. split; [reflexivity|].
  split; [discriminate|]. split; [by repeat constructor|].
  split; [right|by left]. unfold memory_suffixes.
  do 7 right. by left.
Defined.

Lemma memory_setters_spec_witness :
  memory_shape (py "10Gi")
  ∧ (@set_memory_limit no_k8s (py "10Gi") sample_op).1 = inr ()
  ∧ resource_limits (@set_memory_limit no_k8s (py "10Gi") sample_op).2
      !! py "memory" = Some (py "10Gi")
  ∧ resource_requests (@set_memory_request no_k8s (py "10Gi") sample_op).2
      !! py "memory" = Some (py "10Gi").
Proof.
  split; [exact memory_shape_10Gi|].
  destruct (proj1 (@memory_setters_spec no_k8s (py "10Gi") sample_op)
              memory_shape_10Gi)
    as (_ & Hreq & _ & _ & Hret & Hlim & _).
  split; [exact Hret|]. split; [exact Hlim|exact Hreq].
Defined.

Lemma millicore_shape_500m : millicore_shape (py "500m").
Proof.
  exists (py "500"), []. split; [reflexivity|].
  split; [discriminate|]. split; [by repeat constructor|by left].
Defined.

Lemma cpu_setters_spec_witness :
  millicore_shape (py "500m")
  ∧ (@set_cpu_request ascii_db no_k8s (py "500m") sample_op).1 = inr ()
  ∧ resource_requests (@set_cpu_request ascii_db no_k8s (py "500m") sample_op).2
      !! py "cpu" = Some (py "500m")
  ∧ resource_limits (@set_cpu_limit ascii_db no_k8s (py "500m") sample_op).2
      !! py "cpu" = Some (py "500m").
Proof.
  split; [exact millicore_shape_500m|].
  destruct (proj1 (@cpu_setters_spec ascii_db no_k8s (py "500m") sample_op)
              (or_introl millicore_shape_500m))
    as (Hret & Hreq & _ & _ & _ & Hlim & _).
  split; [exact Hret|]. split; [exact Hreq|exact Hlim].
Defined.

Lemma gpu_limit_spec_witness :
  @py_int ascii_db (py "2") = Some 2%Z
  ∧ (@set_gpu_limit ascii_db no_k8s (py "2") (py "amd") sample_op).1 = inr ()
  ∧ resource_limits (@set_gpu_limit ascii_db no_k8s (py "2") (py "amd") sample_op).2
      !! (py "amd" ++ py ".com/gpu") = Some (py "2").
Proof.
  assert (@py_int ascii_db (py "2") = Some 2%Z) as H by (vm_compute; reflexivity).
  split; [exact H|].
  destruct (proj2 (proj2 (proj2
              (@gpu_limit_spec ascii_db no_k8s (py "2") (py "amd") sample_op)))
              2%Z H) as (Hret & Hlim & _); [lia|by right|].
  split; [exact Hret|exact Hlim].
Defined.

Lemma memory_shape_1G : memory_shape (py "1G").
Proof.
  exists (py "1"), (py "G"), []. split; [reflexivity|].
  split; [discriminate|]. split; [by repeat constructor|].
  split; [right|by left]. unfold memory_suffixes.
  do 6 right. by left.
Defined.

Lemma memory_limit_twice_witness :
  memory_shape (py "1G") ∧ memory_shape (py "10Gi")
  ∧ resource_limits
      ((@set_memory_limit no_k8s (py "1G");; set_memory_limit (py "10Gi"))
         sample_op).2 !! py "memory" = Some (py "10Gi").
Proof.
  split; [exact memory_shape_1G|]. split; [exact memory_shape_10Gi|].
  exact (proj1 (proj2 (proj1 (@memory_limit_twice no_k8s (py "1G") (py "10Gi")
                                sample_op memory_shape_1G)
                         memory_shape_10Gi))).
Defined.

Lemma limits_coexist_witness :
  ∃ self',
    (@set_memory_limit no_k8s (py "1G");; @set_cpu_limit ascii_db no_k8s (py "500m");;
     @set_gpu_limit ascii_db no_k8s (py "2") (py "nvidia")) sample_op
      = (inr (), self')
    ∧ resource_limits self' !! py "memory" = Some (py "1G")
    ∧ resource_limits self' !! py "cpu" = Some (py "500m")
    ∧ resource_limits self' !! (py "nvidia" ++ py ".com/gpu") = Some (py "2").
Proof.
  destruct (@limits_coexist ascii_db no_k8s (py "1G") (py "500m") (py "2")
              (py "nvidia") 2%Z sample_op memory_shape_1G
              (or_introl millicore_shape_500m))
    as (self' & H1 & H2 & H3 & H4 & _);
    [vm_compute; reflexivity|lia|by left|].
  exists self'. by repeat split.
Defined.

(** One object of each kind, for the setters that store them. *)
Definition unit_k8s : K8sModels :=
  {| V1Volume := (); V1VolumeMount := (); V1EnvVar := () |}.

Definition sample_op_k8s : @ContainerOp unit_k8s :=
  mkContainerOp (py "train") (py "train") (py "python:3.5-jessie") None None
    false ∅ ∅ ∅ [] [] [] ∅ ∅ 0%Z [] None [] [] ∅ None.

Lemma setters_keep_wiring_witness :
  (@add_volume unit_k8s () sample_op_k8s).1 = inr ()
  ∧ wiring (@add_volume unit_k8s () sample_op_k8s).2 = wiring sample_op_k8s
  ∧ wiring (@set_gpu_limit ascii_db unit_k8s (py "0") (py "amd") sample_op_k8s).2
    = wiring sample_op_k8s.
Proof.
  pose proof (@setters_keep_wiring ascii_db unit_k8s (py "0") (py "amd")
                (py "zone") (py "a") () () () 3%Z sample_op_k8s) as [H1 H2].
  split; [|split].
  - apply H2. do 2 right. by left.
  - apply H2. do 2 right. by left.
  - apply H1. do 4 right. by left.
Defined.

Lemma name_shape_train : @name_shape ascii_db (py "train").
Proof.
  exists 116%N, (py "rain"). split; [reflexivity|].
  split; [reflexivity|by repeat constructor].
Defined.

Lemma init_outcomes_witness :
  @name_shape ascii_db (py "train")
  ∧ ∃ node,
      @__init__ ascii_db reversed_order name_registry no_k8s
        (py "train") (py "busybox") None None None false (Some [])
        = (inr node, Some [py "train"])
      ∧ name node = py "train" ∧ human_name node = py "train".
Proof.
  split; [exact name_shape_train|].
  destruct (proj1 (@init_outcomes ascii_db reversed_order name_registry no_k8s
                     (py "train") (py "busybox") None None None false [])
              name_shape_train)
    as (node & H1 & H2 & H3 & _).
  exists node. by repeat split.
Defined.

Lemma init_inputs_sound_witness :
  ∃ node st' q,
    sample_init (Some []) = (inr node, st')
    ∧ q ∈ inputs node
    ∧ ∃ arg value,
        arg ∈ [two_params] ∧ param_value q = Some value
        ∧ contains (serialize (param_op_name q) (param_name q) value) arg.
Proof.
  assert (∃ node,
    sample_init (Some [])
      = (inr node, Some [py "train"])
    ∧ mkPipelineParam (py "x") (py "a") (Some (py "1")) ∈ inputs node)
    as (node & E & Hq).
  { eexists. split; [vm_compute; reflexivity|]. right. by left. }
  exists node; eexists; eexists. split; [exact E|]. split; [exact Hq|].
  unfold sample_init in E.
  destruct (@init_inputs_sound ascii_db reversed_order name_registry no_k8s
              _ _ _ _ _ _ _ _ _ _ E Hq) as (arg & value & Ha & Hv & Hc & _).
  by exists arg, value.
Defined.

Lemma init_no_inputs_witness :
  ∃ node st',
    @__init__ ascii_db reversed_order name_registry no_k8s
      (py "list") (py "busybox") (Some [py "ls"; py "-l"]) None None false
      (Some [])
      = (inr node, st')
    ∧ inputs node = [].
Proof.
  assert (∃ node,
    @__init__ ascii_db reversed_order name_registry no_k8s
      (py "list") (py "busybox") (Some [py "ls"; py "-l"]) None None false
      (Some [])
      = (inr node, Some [py "list"])) as [node E].
  { eexists. vm_compute. reflexivity. }
  exists node; eexists. split; [exact E|].
  apply (@init_no_inputs ascii_db reversed_order name_registry no_k8s
           _ _ _ _ _ _ _ _ _ E).
  intros arg Harg. apply not_contains_short.
  repeat (apply elem_of_cons in Harg as [->|Harg]);
    [vm_compute; lia..|by apply elem_of_nil in Harg].
Defined.

Lemma init_inputs_complete_witness :
  ∃ node st',
    sample_init (Some []) = (inr node, st')
    ∧ mkPipelineParam (py "x") (py "a") (Some (py "1")) ∈ inputs node.
Proof.
  destruct sample_init_returns as [node E]. exists node; eexists.
  split; [exact E|]. unfold sample_init in E.
  apply (@init_inputs_complete ascii_db reversed_order name_registry no_k8s
           _ _ _ _ _ _ _ _ _ []
           (py "a") (py "x") (py "1")
           (py " {{pipelineparam:op=b;name=y;value=2}}") E).
  - by left.
  - constructor.
  - by repeat constructor.
  - discriminate.
  - by repeat constructor.
  - by repeat constructor.
  - apply not_contains_short. vm_compute. lia.
  - discriminate.
Defined.

(** ** The forms of the command and of the arguments *)

(** The forms in which a caller passes [command] and [arguments]: left
    out, one string, as the signature annotates them, or a list of
    strings, as the body of the constructor uses them. *)
Inductive arg_form :=
| ArgNone
| ArgStr (s : str)
| ArgList (l : list str).

(** [x or []]: [None], the empty string and the empty list give the empty
    list. *)
Definition or_empty_list (x : arg_form) : arg_form :=
  match x with
  | ArgNone | ArgStr [] | ArgList [] => ArgList []
  | _ => x
  end.

(** [x + y]: two strings or two lists are joined; a string and a list
    raise [TypeError], for which [None] stands. *)
Definition py_add (x y : arg_form) : option arg_form :=
  match x, y with
  | ArgStr a, ArgStr b => Some (ArgStr (a ++ b))
  | ArgList a, ArgList b => Some (ArgList (a ++ b))
  | _, _ => None
  end.

(** The values of [for arg in x]: the elements of a list, the characters of
    a string, each as a string of its own. *)
Definition py_iter (x : arg_form) : list str :=
  match x with
  | ArgList l => l
  | ArgStr s => (λ ch, [ch]) <$> s
  | ArgNone => []
  end.

(** What the first part of the constructor raises: one of its own errors,
    or the [TypeError] of the concatenation. *)
Inductive scan_exn :=
| Raised (e : exn)
| TypeError.

(** [None], or the list given. *)
Definition arg_of_option (x : option (list str)) : arg_form :=
  match x with
  | None => ArgNone
  | Some l => ArgList l
  end.

(** The constructor from its first line to the end of the scan, for a
    command and arguments of any of the three forms: the two checks, the
    registration, and the loop that collects the tuples. *)
Definition init_scan {U : UnicodeDB} {R : Registry} (name : str)
    (command arguments : arg_form) (is_exit_handler : bool)
    (st : option Pipeline)
    : (scan_exn + list (str * str * str)) * option Pipeline :=
  match st with
  | None => (inl (Raised (ValueError msg_no_pipeline)), st)
  | Some p =>
      if negb (bool_decide (is_Some (match_ valid_name_regex name)))
      then (inl (Raised (ValueError (msg_bad_name name))), st)
      else
        let r := add_op p name is_exit_handler in
        match py_add (or_empty_list command) (or_empty_list arguments) with
        | None => (inl TypeError, Some r.2)
        | Some both =>
            (inr (arg ← py_iter both; findall pipelineparam_regex arg),
             Some r.2)
        end
  end.

(** A non-empty string. *)
Definition is_text (x : arg_form) : bool :=
  match x with
  | ArgStr (_ :: _) => true
  | _ => false
  end.

Section ArgumentForms.
Context {U : UnicodeDB} {O : SetOrder} {R : Registry} {K : K8sModels}.
Implicit Types (nm img : str) (cmd args : option (list str))
  (command arguments : arg_form) (ieh : bool) (p : Pipeline).

(** On a command and arguments that are absent or lists, the first part is
    the first part of the constructor: the same error and state, or the
    tuples from which the inputs are built. *)
Lemma init_scan_agrees nm img cmd args (fo : option (gmap str str)) ieh
    (st : option Pipeline) :
  match __init__ nm img cmd args fo ieh st with
  | (inl e, st') =>
      init_scan nm (arg_of_option cmd) (arg_of_option args) ieh st
        = (inl (Raised e), st')
  | (inr node, st') =>
      init_scan nm (arg_of_option cmd) (arg_of_option args) ieh st
        = (inr (matches cmd args), st')
  end.
Proof.
  unfold __init__, init_scan, mbind, M_bind, get_default_pipeline, get.
  destruct st as [p|]; [|done].
  rewrite bool_decide_true by eauto. cbn [negb].
  destruct (negb (bool_decide (is_Some (match_ valid_name_regex nm)))); [done|].
  unfold default_pipeline_add_op, mret, M_ret, matches.
  destruct cmd as [[|??]|], args as [[|??]|]; reflexivity.
Qed.

(** No reference fits in one character. *)
Lemma scan_characters_nil (s : str) :
  ((λ ch, [ch]) <$> s) ≫= (λ arg, findall pipelineparam_regex arg) = [].
Proof.
  induction s as [|ch l IH]; [done|].
  rewrite fmap_cons, bind_cons, IH, app_nil_r.
  apply findall_nil, not_contains_short.
  change (length (py "{{pipelineparam:op=")) with 19%nat. cbn [length]. lia.
Qed.

(** X16. When exactly one of the command and the arguments is a non-empty
    string, the constructor called inside a pipeline with an accepted name
    raises [TypeError] at the concatenation, and it does so after the
    registration: the pipeline holds the operation although no operation
    is returned. *)
Theorem init_scan_type_error nm command arguments ieh p :
  name_shape nm →
  is_text command ≠ is_text arguments →
  init_scan nm command arguments ieh (Some p)
    = (inl TypeError, Some (add_op p nm ieh).2).
Proof.
  intros Hn%valid_name_spec Hf. unfold init_scan.
  rewrite bool_decide_true by done. cbn [negb].
  by destruct command as [|[|??]|[|??]], arguments as [|[|??]|[|??]].
Qed.

(** X17. When both the command and the arguments are non-empty strings,
    they are joined and scanned character by character, so no tuple is
    found whatever references the two strings hold; the registration takes
    place. *)
Theorem init_scan_two_strings nm (a b : str) ieh p :
  name_shape nm → a ≠ [] → b ≠ [] →
  init_scan nm (ArgStr a) (ArgStr b) ieh (Some p)
    = (inr [], Some (add_op p nm ieh).2).
Proof.
  intros Hn%valid_name_spec Ha Hb. unfold init_scan.
  rewrite bool_decide_true by done. cbn [negb].
  destruct a as [|a0 a]; [done|]. destruct b as [|b0 b]; [done|].
  cbn [or_empty_list py_add py_iter]. by rewrite scan_characters_nil.
Qed.
End ArgumentForms.

Lemma init_scan_type_error_witness :
  @name_shape ascii_db (py "train")
  ∧ is_text (ArgStr (py "echo")) ≠ is_text ArgNone
  ∧ @init_scan ascii_db name_registry (py "train") (ArgStr (py "echo")) ArgNone
      false (Some [])
    = (inl TypeError, Some [py "train"]).
Proof.
  split; [exact name_shape_train|].
  assert (is_text (ArgStr (py "echo")) ≠ is_text ArgNone) as H by discriminate.
  split; [exact H|].
  exact (@init_scan_type_error ascii_db name_registry (py "train")
           (ArgStr (py "echo")) ArgNone false [] name_shape_train H).
Defined.

Lemma init_scan_two_strings_witness :
  @name_shape ascii_db (py "train")
  ∧ @init_scan ascii_db name_registry (py "train")
      (ArgStr (serialize (py "a") (py "x") (py "1"))) (ArgStr (py "now")) false
      (Some [])
    = (inr [], Some [py "train"]).
Proof.
  split; [exact name_shape_train|].
  apply (@init_scan_two_strings ascii_db name_registry (py "train")
           (serialize (py "a") (py "x") (py "1")) (py "now") false []
           name_shape_train); discriminate.
Defined.
